(** * NHANES CHD study: harmonization and survey-weighted estimation

    A shallow embedding of [scripts/02_harmonize_variables.py],
    [scripts/06_nhanes_iii_harmonize.py] and
    [scripts/03_statistical_analysis.py].

    Conventions of the embedding.
    - A float64 is an exact rational, one of the two infinities, or NaN
      ([fval]); rounding and signed zeros are not modelled, the special
      values follow IEEE 754 as numpy implements them.
    - A pandas Series of floats is a [list fval]; a DataFrame is a length,
      a finite map of float columns and a finite map of string columns.
      All frames handled by the scripts carry a default RangeIndex, so
      index alignment is position-wise.
    - A Python exception is a value of [exn] in the [result] monad.

    Domain of the embedding.
    - Arithmetic on [fval] is exact: a finite result is never rounded and
      never overflows. Statements about numbers are meant for inputs
      whose sums stay within the float64 range; where overflow decides
      the outcome the steps are evaluated on the kernel's binary64
      floats ([F64]).
    - [df_col] reads a float column. The frames that the scripts compute
      on are numeric apart from the era and cycle tags; reading a string
      column as numbers, or naming the same column as outcome and as
      weight, is outside the embedding, and theorems on exceptions
      assume it away.
    - [df_rename] moves a column to its new name. A frame that already
      has a column under a target name is outside the embedding (pandas
      would keep both columns); theorems on [harmonize_nhanes_iii]
      assume that the frame has no such column. *)

From Stdlib Require Import QArith Qround Qabs Lqa ZArith Lia.
From stdpp Require Import gmap strings list fin_maps sorting.
From Stdlib Require PrimFloat Uint63.

Local Open Scope Q_scope.

(** ** Floating-point values *)

Inductive fval : Type :=
  | Fin (q : Q)
  | PInf
  | NInf
  | NaN.

Module F.

Definition is_nan (x : fval) : bool :=
  match x with NaN => true | _ => false end.

Definition neg (x : fval) : fval :=
  match x with
  | Fin q => Fin (- q)
  | PInf => NInf
  | NInf => PInf
  | NaN => NaN
  end.

Definition add (x y : fval) : fval :=
  match x, y with
  | NaN, _ | _, NaN => NaN
  | Fin a, Fin b => Fin (a + b)
  | PInf, NInf | NInf, PInf => NaN
  | PInf, _ | _, PInf => PInf
  | NInf, _ | _, NInf => NInf
  end.

Definition sub (x y : fval) : fval := add x (neg y).

(** Sign of an infinity scaled by a finite factor; [0 * inf] is NaN. *)
Definition scale_inf (q : Q) (pos : bool) : fval :=
  match q ?= 0 with
  | Eq => NaN
  | Gt => if pos then PInf else NInf
  | Lt => if pos then NInf else PInf
  end.

Definition mul (x y : fval) : fval :=
  match x, y with
  | NaN, _ | _, NaN => NaN
  | Fin a, Fin b => Fin (a * b)
  | Fin a, PInf | PInf, Fin a => scale_inf a true
  | Fin a, NInf | NInf, Fin a => scale_inf a false
  | PInf, PInf | NInf, NInf => PInf
  | PInf, NInf | NInf, PInf => NInf
  end.

(** numpy division: a zero divisor gives an infinity or NaN (with a
    warning), never an exception. *)
Definition div (x y : fval) : fval :=
  match x, y with
  | NaN, _ | _, NaN => NaN
  | Fin a, Fin b =>
      match b ?= 0 with
      | Eq => match a ?= 0 with Eq => NaN | Gt => PInf | Lt => NInf end
      | _ => Fin (a / b)
      end
  | Fin _, (PInf | NInf) => Fin 0
  | PInf, Fin b => match b ?= 0 with Lt => NInf | _ => PInf end
  | NInf, Fin b => match b ?= 0 with Lt => PInf | _ => NInf end
  | (PInf | NInf), (PInf | NInf) => NaN
  end.

(** Comparisons: every comparison with NaN is false. *)
Definition eqb (x y : fval) : bool :=
  match x, y with
  | Fin a, Fin b => Qeq_bool a b
  | PInf, PInf | NInf, NInf => true
  | _, _ => false
  end.

Definition ltb (x y : fval) : bool :=
  match x, y with
  | NaN, _ | _, NaN => false
  | Fin a, Fin b => match a ?= b with Lt => true | _ => false end
  | NInf, (Fin _ | PInf) => true
  | Fin _, PInf => true
  | _, _ => false
  end.

Definition leb (x y : fval) : bool :=
  match x, y with
  | NaN, _ | _, NaN => false
  | Fin a, Fin b => Qle_bool a b
  | NInf, _ | _, PInf => true
  | _, _ => false
  end.

Definition gtb (x y : fval) : bool := ltb y x.
Definition geb (x y : fval) : bool := leb y x.

(** [bool.astype(float)] *)
Definition of_bool (b : bool) : fval := if b then Fin 1 else Fin 0.

(** Python's builtin [max(a, b)] returns [a] unless [b > a];
    [min(a, b)] returns [a] unless [b < a]. *)
Definition py_max (a b : fval) : fval := if gtb b a then b else a.
Definition py_min (a b : fval) : fval := if ltb b a then b else a.

(** [Series.sum()], which skips NaN entries ([skipna=True]): a left fold
    from 0 over the other entries. *)
Definition sum (s : list fval) : fval :=
  foldl add (Fin 0) (List.filter (λ x, negb (is_nan x)) s).

(** Equality of float values as numbers (NaN equals nothing). *)
Definition eq (x y : fval) : Prop :=
  match x, y with
  | Fin a, Fin b => a == b
  | PInf, PInf | NInf, NInf => True
  | _, _ => False
  end.

End F.

Abbreviation Series := (list fval).

(** ** Series and DataFrame operations *)

Definition nan_series (n : nat) : Series := replicate n NaN.

(** [s == v], [s >= v] on a Series: element-wise, yielding a boolean mask. *)
Definition series_eq (s : Series) (v : fval) : list bool :=
  (λ x, F.eqb x v) <$> s.
Definition series_ge (s : Series) (v : fval) : list bool :=
  (λ x, F.geb x v) <$> s.
Definition series_isin (s : Series) (vs : list fval) : list bool :=
  (λ x, existsb (F.eqb x) vs) <$> s.

Definition mask_or : list bool → list bool → list bool := zip_with orb.
Definition mask_and : list bool → list bool → list bool := zip_with andb.

(** [s[mask] = v] *)
Definition set_where (s : Series) (mask : list bool) (v : fval) : Series :=
  zip_with (λ x (b : bool), if b then v else x) s mask.

(** [mask.astype(float)] *)
Definition astype_float (mask : list bool) : Series := F.of_bool <$> mask.

Definition series_sub : Series → Series → Series := zip_with F.sub.
Definition series_div_scalar (s : Series) (c : fval) : Series :=
  (λ x, F.div x c) <$> s.

Record DataFrame : Type := mkDF {
  df_len : nat;
  df_num : gmap string (list fval);
  df_str : gmap string (list string)
}.

(** Every column of a frame has the frame's length. *)
Definition df_wf (df : DataFrame) : Prop :=
  map_Forall (λ _ s, length s = df_len df) (df_num df) ∧
  map_Forall (λ _ s, length s = df_len df) (df_str df).

#[global] Instance df_wf_dec df : Decision (df_wf df).
Proof. unfold df_wf. apply _. Defined.

(** [df.get(name, dflt)] for a float column. *)
Definition df_get (df : DataFrame) (name : string) (dflt : Series) : Series :=
  default dflt (df_num df !! name).

(** ** scripts/02_harmonize_variables.py *)

Inductive var_type : Type := continuous | nhanes_iii.

Record chd_names : Type := mkChdNames {
  chd : string;
  angina : string;
  mi : string
}.

Definition CHD_VARS (t : var_type) : chd_names :=
  match t with
  | continuous =>
      {| chd := "MCQ160C"; angina := "MCQ160D"; mi := "MCQ160E" |}
  | nhanes_iii =>
      {| chd := "HAD1"; angina := "HAD2"; mi := "HAD3" |}
  end.

Definition create_chd_composite (df : DataFrame) (t : var_type) : Series :=
  let vars := CHD_VARS t in
  let chd := df_get df (chd vars) (nan_series (df_len df)) in
  let angina := df_get df (angina vars) (nan_series (df_len df)) in
  let mi := df_get df (mi vars) (nan_series (df_len df)) in
  let composite := nan_series (df_len df) in
  let any_yes :=
    mask_or (mask_or (series_eq chd (Fin 1)) (series_eq angina (Fin 1)))
            (series_eq mi (Fin 1)) in
  let composite := set_where composite any_yes (Fin 1) in
  let all_no :=
    mask_and (mask_and (series_eq chd (Fin 2)) (series_eq angina (Fin 2)))
             (series_eq mi (Fin 2)) in
  set_where composite all_no (Fin 0).

Definition calculate_ldl (df : DataFrame) : Series :=
  let tc := df_get df "tchol" (nan_series (df_len df)) in
  let hdl := df_get df "hdl" (nan_series (df_len df)) in
  let tg := df_get df "trigly" (nan_series (df_len df)) in
  let ldl := series_sub (series_sub tc hdl) (series_div_scalar tg (Fin 5)) in
  set_where ldl (series_ge tg (Fin 400)) NaN.

(** [df.columns] restricted to the float columns whose name starts with
    [p]; the blood-pressure readings are float columns. *)
Definition columns_startswith (df : DataFrame) (p : string) : list string :=
  List.filter (String.prefix p) (fst <$> map_to_list (df_num df)).

(** [df[cols].mean(axis=1)]: per row, the mean of the non-NaN entries,
    NaN when there is none. *)
Definition row_mean (vals : list fval) : fval :=
  let present := List.filter (λ x, negb (F.is_nan x)) vals in
  match present with
  | [] => NaN
  | _ => F.div (F.sum vals) (Fin (inject_Z (Z.of_nat (length present))))
  end.

Definition mean_axis1 (df : DataFrame) (cols : list string) : Series :=
  (λ i, row_mean (omap (λ c, df_num df !! c ≫= (.!! i)) cols))
    <$> seq 0 (df_len df).

Definition define_hypertension (df : DataFrame) : Series :=
  let sbp_cols := columns_startswith df "sbp" in
  let dbp_cols := columns_startswith df "dbp" in
  let mean_sbp :=
    match sbp_cols with
    | [] => nan_series (df_len df)
    | _ => mean_axis1 df sbp_cols
    end in
  let mean_dbp :=
    match dbp_cols with
    | [] => nan_series (df_len df)
    | _ => mean_axis1 df dbp_cols
    end in
  let bp_med := df_get df "bp_med" (nan_series (df_len df)) in
  astype_float
    (mask_or (mask_or (series_ge mean_sbp (Fin 130))
                      (series_ge mean_dbp (Fin 80)))
             (series_eq bp_med (Fin 1))).

Definition define_diabetes (df : DataFrame) : Series :=
  let hba1c := df_get df "hba1c" (nan_series (df_len df)) in
  let glucose := df_get df "glucose" (nan_series (df_len df)) in
  let insulin := df_get df "insulin_use" (nan_series (df_len df)) in
  let oral_med := df_get df "oral_dm_med" (nan_series (df_len df)) in
  let diabetes_told := df_get df "diabetes_told" (nan_series (df_len df)) in
  astype_float
    (mask_or
       (mask_or
          (mask_or
             (mask_or (series_ge hba1c (Fin (65 # 10)))
                      (series_ge glucose (Fin 126)))
             (series_eq insulin (Fin 1)))
          (series_eq oral_med (Fin 1)))
       (series_eq diabetes_told (Fin 1))).

Definition define_hyperlipidemia (df : DataFrame) : Series :=
  let tchol := df_get df "tchol" (nan_series (df_len df)) in
  let ldl := df_get df "ldl_calc" (nan_series (df_len df)) in
  astype_float (mask_or (series_ge tchol (Fin 200)) (series_ge ldl (Fin 130))).

Definition define_obesity (df : DataFrame) : Series :=
  let bmi := df_get df "bmi" (nan_series (df_len df)) in
  astype_float (series_ge bmi (Fin 30)).

(** 1 = Current, 2 = Former, 3 = Never. *)
Definition define_smoking_status (df : DataFrame) : Series :=
  let smoke_100 := df_get df "smoke_100" (nan_series (df_len df)) in
  let smoke_now := df_get df "smoke_now" (nan_series (df_len df)) in
  let status := nan_series (df_len df) in
  let status := set_where status (series_eq smoke_100 (Fin 2)) (Fin 3) in
  let status :=
    set_where status
      (mask_and (series_eq smoke_100 (Fin 1))
                (series_isin smoke_now [Fin 1; Fin 2]))
      (Fin 1) in
  set_where status
    (mask_and (series_eq smoke_100 (Fin 1)) (series_eq smoke_now (Fin 3)))
    (Fin 2).

(** ** Exceptions *)

Inductive exn : Type :=
  | KeyError (k : string)
  | ValueError
  | OverflowError.

Inductive result (A : Type) : Type :=
  | Ok (a : A)
  | Raise (e : exn).
Arguments Ok {A} a.
Arguments Raise {A} e.

#[global] Instance result_ret : MRet result := λ A a, Ok a.
#[global] Instance result_bind : MBind result :=
  λ A B f m, match m with Ok a => f a | Raise e => Raise e end.

(** [df[name]] for a float column and for a string column. *)
Definition df_col (df : DataFrame) (name : string) : result Series :=
  match df_num df !! name with
  | Some s => Ok s
  | None => Raise (KeyError name)
  end.

Definition df_scol (df : DataFrame) (name : string) : result (list string) :=
  match df_str df !! name with
  | Some s => Ok s
  | None => Raise (KeyError name)
  end.

(** [df[name] = s] *)
Definition df_set (df : DataFrame) (name : string) (s : Series) : DataFrame :=
  mkDF (df_len df) (<[name := s]> (df_num df)) (delete name (df_str df)).

Definition df_set_str (df : DataFrame) (name : string) (s : list string)
  : DataFrame :=
  mkDF (df_len df) (delete name (df_num df)) (<[name := s]> (df_str df)).

(** [df.loc[mask, name] = v] on an existing float column. *)
Definition df_loc_set (df : DataFrame) (mask : list bool) (name : string)
    (v : fval) : DataFrame :=
  mkDF (df_len df) (alter (λ s, set_where s mask v) name (df_num df))
       (df_str df).

(** Boolean-mask row selection [df[mask]]. *)
Definition select {A} (mask : list bool) (s : list A) : list A :=
  fst <$> List.filter snd (zip s mask).

Definition df_filter (df : DataFrame) (mask : list bool) : DataFrame :=
  mkDF (length (List.filter id mask))
       (select mask <$> df_num df) (select mask <$> df_str df).

(** ** scripts/06_nhanes_iii_harmonize.py *)

Definition rename_one {A} (m : gmap string A) (old new : string)
  : gmap string A :=
  match m !! old with
  | Some s => <[new := s]> (delete old m)
  | None => m
  end.

(** [df.rename(columns=mapping)]; the mapping's targets are not source
    names of other entries, so renaming one column at a time agrees with
    pandas' simultaneous renaming. *)
Definition df_rename (df : DataFrame) (mapping : list (string * string))
  : DataFrame :=
  mkDF (df_len df)
       (foldl (λ m p, rename_one m p.1 p.2) (df_num df) mapping)
       (foldl (λ m p, rename_one m p.1 p.2) (df_str df) mapping).

Definition race_recode : list (Q * Q) := [(1, 3); (2, 4); (3, 1); (4, 5)].

(** [s.map(d)]: values that are not keys of [d] become NaN. *)
Definition series_map (d : list (Q * Q)) (s : Series) : Series :=
  (λ x, match x with
        | Fin q =>
            match List.find (λ kv, Qeq_bool q kv.1) d with
            | Some kv => Fin kv.2
            | None => NaN
            end
        | _ => NaN
        end) <$> s.

Definition harmonize_nhanes_iii (df : DataFrame) : result DataFrame :=
  let df := df_rename df
    [("SEQN", "SEQN"); ("HSAGEIR", "RIDAGEYR"); ("HSSEX", "RIAGENDR");
     ("DMARETHN", "RIDRETH1"); ("DMPPIR", "INDFMPIR");
     ("WTPFEX6", "WTMEC2YR"); ("SDPSTRA6", "SDMVSTRA");
     ("SDPPSU6", "SDMVPSU")] in
  race ← df_col df "RIDRETH1";
  let df := df_set df "RIDRETH1" (series_map race_recode race) in
  let df := df_set df "chd_composite" (nan_series (df_len df)) in
  had1 ← df_col df "HAD1";
  had2 ← df_col df "HAD2";
  had3 ← df_col df "HAD3";
  let any_yes :=
    mask_or (mask_or (series_eq had1 (Fin 1)) (series_eq had2 (Fin 1)))
            (series_eq had3 (Fin 1)) in
  let all_no :=
    mask_and (mask_and (series_eq had1 (Fin 2)) (series_eq had2 (Fin 2)))
             (series_eq had3 (Fin 2)) in
  let df := df_loc_set df any_yes "chd_composite" (Fin 1) in
  let df := df_loc_set df all_no "chd_composite" (Fin 0) in
  let df := df_set_str df "era" (replicate (df_len df) "Era1_1988-1994") in
  let df := df_set_str df "cycle" (replicate (df_len df) "1988-1994") in
  Ok df.

(** ** scripts/03_statistical_analysis.py *)

Definition US_STD_2000 : list (string * Q) :=
  [("20-29", 1318 # 10000);
   ("30-39", 1342 # 10000);
   ("40-49", 1354 # 10000);
   ("50-59", 933 # 10000);
   ("60-69", 640 # 10000);
   ("70-79", 463 # 10000);
   ("80+", 229 # 10000)].

Definition Qlt_bool (a b : Q) : bool :=
  match a ?= b with Lt => true | _ => false end.

(** [pd.cut(age, bins, labels, right=False)]: the label of the half-open
    bin [lo, hi) that holds the value, no label outside the bins or for a
    missing age. *)
Definition age_bins : list (Q * Q * string) :=
  [(20, 30, "20-29"); (30, 40, "30-39"); (40, 50, "40-49");
   (50, 60, "50-59"); (60, 70, "60-69"); (70, 80, "70-79");
   (80, 120, "80+")].

Definition cut_label (x : fval) : option string :=
  match x with
  | Fin q =>
      snd <$> List.find (λ b, Qle_bool b.1.1 q && Qlt_bool q b.1.2) age_bins
  | _ => None
  end.

Definition create_age_groups (age : Series) : list (option string) :=
  cut_label <$> age.

(** The dict returned by the estimator; [n_cases = None] stands for a dict
    without the key ["n_cases"]. *)
Record estimate : Type := mkEstimate {
  prevalence : fval;
  se : fval;
  ci_low : fval;
  ci_high : fval;
  n : nat;
  n_cases : option Z
}.

(** [d["n_cases"]] *)
Definition get_n_cases (d : estimate) : result Z :=
  match n_cases d with
  | Some c => Ok c
  | None => Raise (KeyError "n_cases")
  end.

(** [int(x)]: truncation toward zero; NaN and the infinities raise. *)
Definition py_int (x : fval) : result Z :=
  match x with
  | Fin q => Ok (Z.quot (Qnum q) (Zpos (Qden q)))
  | NaN => Raise ValueError
  | PInf | NInf => Raise OverflowError
  end.

(** [df[[outcome, weight]].dropna()] as the list of its rows. *)
Definition dropna2 (o w : Series) : list (fval * fval) :=
  List.filter (λ p, negb (F.is_nan p.1) && negb (F.is_nan p.2)) (zip o w).

Definition of_nat (k : nat) : fval := Fin (inject_Z (Z.of_nat k)).

(** [np.sqrt], over a square root [sqrtQ] of the non-negative rationals. *)
Definition np_sqrt (sqrtQ : Q → Q) (x : fval) : fval :=
  match x with
  | Fin q => if Qle_bool 0 q then Fin (sqrtQ q) else NaN
  | PInf => PInf
  | NInf | NaN => NaN
  end.

Definition calculate_survey_weighted_prevalence (sqrtQ : Q → Q)
    (df : DataFrame) (outcome weight : string) : result estimate :=
  o ← df_col df outcome;
  w ← df_col df weight;
  let valid := dropna2 o w in
  if (length valid =? 0)%nat then
    Ok {| prevalence := NaN; se := NaN; ci_low := NaN; ci_high := NaN;
          n := 0; n_cases := None |}
  else
    let weighted_sum := F.sum ((λ p, F.mul p.1 p.2) <$> valid) in
    let total_weight := F.sum (snd <$> valid) in
    let prevalence := F.div weighted_sum total_weight in
    let n := length valid in
    let p := prevalence in
    let se_approx :=
      np_sqrt sqrtQ (F.div (F.mul p (F.sub (Fin 1) p)) (of_nat n)) in
    let ci_low :=
      F.py_max (Fin 0) (F.sub prevalence (F.mul (Fin (196 # 100)) se_approx)) in
    let ci_high :=
      F.py_min (Fin 1) (F.add prevalence (F.mul (Fin (196 # 100)) se_approx)) in
    cases ← py_int (F.sum (fst <$> valid));
    Ok {| prevalence := prevalence; se := se_approx; ci_low := ci_low;
          ci_high := ci_high; n := n; n_cases := Some cases |}.

Definition age_standardize_loop (prevalence_by_age : gmap string fval)
    (acc : fval * Q) (entry : string * Q) : fval * Q :=
  match prevalence_by_age !! entry.1 with
  | Some p => (F.add acc.1 (F.mul p (Fin entry.2)), acc.2 + entry.2)
  | None => acc
  end.

Definition age_standardize (prevalence_by_age : gmap string fval) : fval :=
  let acc :=
    foldl (age_standardize_loop prevalence_by_age) (Fin 0, 0) US_STD_2000 in
  let standardized := acc.1 in
  let total_weight := acc.2 in
  if Qlt_bool 0 total_weight && Qlt_bool total_weight 1 then
    F.div standardized (Fin total_weight)
  else standardized.

(** [sorted(df['era'].unique())] *)
Definition sorted_unique (l : list string) : list string :=
  merge_sort String.le (remove_dups l).

Definition str_eq (s : list string) (v : string) : list bool :=
  (λ x, bool_decide (x = v)) <$> s.

Definition group_eq (g : list (option string)) (v : string) : list bool :=
  (λ x, bool_decide (x = Some v)) <$> g.

Record era_row : Type := mkEraRow {
  er_era : string;
  er_n_total : nat;
  er_n_chd : Z;
  er_crude_prevalence : fval;
  er_crude_ci_low : fval;
  er_crude_ci_high : fval;
  er_age_std_prevalence : fval
}.

(** The loop over [US_STD_2000.keys()] that fills [age_prev]. *)
Fixpoint age_prev_loop (sqrtQ : Q → Q) (era_df : DataFrame)
    (age_group : list (option string)) (keys : list string)
    (age_prev : gmap string fval) : result (gmap string fval) :=
  match keys with
  | [] => Ok age_prev
  | ag :: keys =>
      let ag_df := df_filter era_df (group_eq age_group ag) in
      if (30 <? df_len ag_df)%nat then
        ag_prev ← calculate_survey_weighted_prevalence sqrtQ ag_df
                    "chd_composite" "WTMEC2YR";
        age_prev_loop sqrtQ era_df age_group keys
          (<[ag := prevalence ag_prev]> age_prev)
      else age_prev_loop sqrtQ era_df age_group keys age_prev
  end.

Definition era_age_prev (sqrtQ : Q → Q) (era_df : DataFrame)
  : result (gmap string fval) :=
  age ← df_col era_df "RIDAGEYR";
  age_prev_loop sqrtQ era_df (create_age_groups age) (US_STD_2000.*1) ∅.

Definition analyze_era (sqrtQ : Q → Q) (df : DataFrame) (eras : list string)
    (era : string) : result era_row :=
  let era_df := df_filter df (str_eq eras era) in
  prev ← calculate_survey_weighted_prevalence sqrtQ era_df
           "chd_composite" "WTMEC2YR";
  age_prev ← era_age_prev sqrtQ era_df;
  let age_std_prev :=
    if decide (age_prev = ∅) then NaN else age_standardize age_prev in
  n_chd ← get_n_cases prev;
  Ok {| er_era := era; er_n_total := df_len era_df; er_n_chd := n_chd;
        er_crude_prevalence := prevalence prev;
        er_crude_ci_low := ci_low prev;
        er_crude_ci_high := ci_high prev;
        er_age_std_prevalence := age_std_prev |}.

Definition analyze_prevalence_by_era (sqrtQ : Q → Q) (df : DataFrame)
  : result (list era_row) :=
  eras ← df_scol df "era";
  mapM (analyze_era sqrtQ df eras) (sorted_unique eras).

Record risk_row : Type := mkRiskRow {
  rr_era : string;
  rr_n_chd : nat;
  (** the entries [<rf>_prev] and [<rf>_n], keyed by the risk factor *)
  rr_factors : list (string * (fval * Z))
}.

Definition risk_factors : list string :=
  ["hypertension"; "diabetes"; "hyperlipidemia"; "obesity"].

Fixpoint risk_factor_loop (sqrtQ : Q → Q) (era_df : DataFrame)
    (rfs : list string) : result (list (string * (fval * Z))) :=
  match rfs with
  | [] => Ok []
  | rf :: rfs =>
      if bool_decide (is_Some (df_num era_df !! rf)) then
        prev ← calculate_survey_weighted_prevalence sqrtQ era_df
                 rf "WTMEC2YR";
        cases ← get_n_cases prev;
        rest ← risk_factor_loop sqrtQ era_df rfs;
        Ok ((rf, (prevalence prev, cases)) :: rest)
      else risk_factor_loop sqrtQ era_df rfs
  end.

Definition analyze_risk_factors_by_era (sqrtQ : Q → Q) (df : DataFrame)
  : result (list risk_row) :=
  eras ← df_scol df "era";
  mapM (λ era,
          chd ← df_col df "chd_composite";
          let era_df :=
            df_filter df (mask_and (str_eq eras era) (series_eq chd (Fin 1))) in
          factors ← risk_factor_loop sqrtQ era_df risk_factors;
          Ok {| rr_era := era; rr_n_chd := df_len era_df;
                rr_factors := factors |})
       (sorted_unique eras).

Record subgroup_row : Type := mkSubgroupRow {
  sg_era : string;
  sg_subgroup : string;
  sg_n_total : nat;
  sg_n_chd : Z;
  sg_prevalence : fval;
  sg_ci_low : fval;
  sg_ci_high : fval
}.

(** The loop over [subgroup_labels.items()] within one era. *)
Fixpoint subgroup_loop (sqrtQ : Q → Q) (era : string) (era_df : DataFrame)
    (subgroup_var : string) (labels : list (Q * string))
  : result (list subgroup_row) :=
  match labels with
  | [] => Ok []
  | (value, label) :: labels =>
      col ← df_col era_df subgroup_var;
      let sub_df := df_filter era_df (series_eq col (Fin value)) in
      if (50 <? df_len sub_df)%nat then
        prev ← calculate_survey_weighted_prevalence sqrtQ sub_df
                 "chd_composite" "WTMEC2YR";
        n_chd ← get_n_cases prev;
        rest ← subgroup_loop sqrtQ era era_df subgroup_var labels;
        Ok ({| sg_era := era; sg_subgroup := label;
               sg_n_total := df_len sub_df; sg_n_chd := n_chd;
               sg_prevalence := prevalence prev;
               sg_ci_low := ci_low prev;
               sg_ci_high := ci_high prev |} :: rest)
      else subgroup_loop sqrtQ era era_df subgroup_var labels
  end.

Definition analyze_by_subgroup (sqrtQ : Q → Q) (df : DataFrame)
    (subgroup_var : string) (subgroup_labels : list (Q * string))
  : result (list subgroup_row) :=
  eras ← df_scol df "era";
  rows ← mapM (λ era,
                 subgroup_loop sqrtQ era (df_filter df (str_eq eras era))
                   subgroup_var subgroup_labels)
              (sorted_unique eras);
  Ok (concat rows).

Definition series_gt (s : Series) (v : fval) : list bool :=
  (λ x, F.gtb x v) <$> s.
Definition series_notna (s : Series) : list bool :=
  (λ x, negb (F.is_nan x)) <$> s.

(** The exclusion criteria [main] applies before any analysis. *)
Definition apply_exclusions (df : DataFrame) : result DataFrame :=
  age ← df_col df "RIDAGEYR";
  let df := df_filter df (series_ge age (Fin 20)) in
  chd ← df_col df "chd_composite";
  let df := df_filter df (series_notna chd) in
  w ← df_col df "WTMEC2YR";
  Ok (df_filter df (series_gt w (Fin 0))).

(** ** Reference definitions taken from the specification *)


(** The thresholds as the specification words them. *)
Definition spec_bucket_contributes (records : nat) : bool := (30 <=? records)%nat.
Definition spec_cell_reported (records : nat) : bool := (50 <=? records)%nat.

(** ** A computable square root for the examples

    [sqrt_floor q] is the square root of [q] rounded down to six decimal
    places. *)
Definition sqrt_floor (q : Q) : Q :=
  Z.sqrt (Qfloor (q * 1000000000000)) # 1000000.

(** ** Row-wise reading of the coded answers *)

(** NHANES codes a yes/no answer as 1 = Yes, 2 = No. *)
Definition is_yes (x : fval) : Prop := F.eq x (Fin 1).
Definition is_no (x : fval) : Prop := F.eq x (Fin 2).

(** The three-valued composite of one record, read off its three
    indicators: Positive is 1, Negative is 0, Unknown is NaN. *)
Definition tri_state (a b c v : fval) : Prop :=
  (v = Fin 1 ↔ is_yes a ∨ is_yes b ∨ is_yes c) ∧
  (v = Fin 0 ↔ is_no a ∧ is_no b ∧ is_no c) ∧
  (v = NaN ↔ ¬ (is_yes a ∨ is_yes b ∨ is_yes c) ∧
             ¬ (is_no a ∧ is_no b ∧ is_no c)).

(** The same composite as a function of the three indicators. *)
Definition chd_rule (a b c : fval) : fval :=
  if F.eqb a (Fin 1) || F.eqb b (Fin 1) || F.eqb c (Fin 1) then Fin 1
  else if F.eqb a (Fin 2) && F.eqb b (Fin 2) && F.eqb c (Fin 2) then Fin 0
  else NaN.

(** Row [i] of the three indicator columns named by [names]. *)
Definition indicators_at (df : DataFrame) (names : chd_names) (i : nat)
    (a b c : fval) : Prop :=
  (df_num df !! chd names ≫= (.!! i)) = Some a ∧
  (df_num df !! angina names ≫= (.!! i)) = Some b ∧
  (df_num df !! mi names ≫= (.!! i)) = Some c.

(** Row [i] of a column read with [df.get(name, <all-NaN Series>)]. *)
Definition cell (df : DataFrame) (name : string) (i : nat) : option fval :=
  df_get df name (nan_series (df_len df)) !! i.

(** A Series without a single definite value. *)
Definition entirely_missing (s : Series) : Prop := Forall (λ v, v = NaN) s.

(** A Series of definite values only: all 0, or each 0 or 1. *)
Definition entirely_zero (s : Series) : Prop := Forall (λ v, v = Fin 0) s.
Definition definite (s : Series) : Prop :=
  Forall (λ v, v = Fin 0 ∨ v = Fin 1) s.

(** The mean blood pressure column that [define_hypertension] compares,
    for the readings whose name starts with [p]. *)
Definition mean_bp (df : DataFrame) (p : string) : Series :=
  match columns_startswith df p with
  | [] => nan_series (df_len df)
  | _ => mean_axis1 df (columns_startswith df p)
  end.

(** The Friedewald estimate of one record. *)
Definition ldl_row (tc hdl tg : fval) : fval :=
  if F.geb tg (Fin 400) then NaN
  else F.sub (F.sub tc hdl) (F.div tg (Fin 5)).

(** The smoking status of one record; the assignment made last wins. *)
Definition smoking_row (smoke_100 smoke_now : fval) : fval :=
  if F.eqb smoke_100 (Fin 1) && F.eqb smoke_now (Fin 3) then Fin 2
  else if F.eqb smoke_100 (Fin 1)
          && existsb (F.eqb smoke_now) [Fin 1; Fin 2] then Fin 1
  else if F.eqb smoke_100 (Fin 2) then Fin 3
  else NaN.

(** ** Age standardization, read declaratively *)

(** The sum of the reference weights over the full bucket set. *)
Definition US_STD_2000_total : Q := foldl Qplus 0 (US_STD_2000.*2).

(** The reference buckets that the input mapping holds. *)
Definition present_buckets (m : gmap string fval) : list (string * Q) :=
  List.filter (λ e, bool_decide (is_Some (m !! e.1))) US_STD_2000.

(** Sum of prevalence[b] × referenceWeight[b] over the present buckets. *)
Definition weighted_part (m : gmap string fval) : fval :=
  foldl F.add (Fin 0)
    ((λ e, F.mul (default NaN (m !! e.1)) (Fin e.2)) <$> present_buckets m).

(** Sum of the reference weights of the present buckets. *)
Definition weight_part (m : gmap string fval) : Q :=
  foldl Qplus 0 ((present_buckets m).*2).

(** ** The estimator's inputs, read declaratively *)


(** A valid record whose outcome is a finite number. *)
Definition finite_outcome (p : fval * fval) : Prop := ∃ o, p.1 = Fin o.

(** The number of records of an era slice that fall in age bucket [ag],
    and the number whose subgroup variable equals [value]: the lengths
    that the analyzers compare with their minimum sample sizes. *)
Definition bucket_size (era_df : DataFrame)
    (age_group : list (option string)) (ag : string) : nat :=
  df_len (df_filter era_df (group_eq age_group ag)).

Definition cell_size (era_df : DataFrame) (col : Series) (value : Q) : nat :=
  df_len (df_filter era_df (series_eq col (Fin value))).

(** What the exclusion step leaves: a frame whose outcome column holds
    finite numbers only and whose weight column has no missing value. *)
Definition analysis_ready (df : DataFrame) : Prop :=
  ∃ chd w,
    df_num df !! "chd_composite" = Some chd ∧
    df_num df !! "WTMEC2YR" = Some w ∧
    Forall (λ x, ∃ q, x = Fin q) chd ∧ Forall (λ x, x ≠ NaN) w.

(** The result returned for an empty set of valid records. *)
Definition empty_estimate : estimate :=
  {| prevalence := NaN; se := NaN; ci_low := NaN; ci_high := NaN;
     n := 0; n_cases := None |}.

(** ** Sample frames *)


(** An era in which nobody has CHD. *)
Definition sample_no_cases : DataFrame :=
  mkDF 2
    {[ "chd_composite" := [Fin 0; Fin 0];
       "WTMEC2YR" := [Fin 1; Fin 1];
       "hypertension" := [Fin 0; Fin 1] ]}
    {[ "era" := ["Era2_1999-2006"; "Era2_1999-2006"] ]}.


(** [k] men aged 25 of one era, none with CHD, each of weight 1. *)
Definition cohort (k : nat) : DataFrame :=
  mkDF k
    {[ "chd_composite" := replicate k (Fin 0);
       "WTMEC2YR" := replicate k (Fin 1);
       "RIDAGEYR" := replicate k (Fin 25);
       "RIAGENDR" := replicate k (Fin 1) ]}
    {[ "era" := replicate k "Era2_1999-2006" ]}.

Definition sex_labels : list (Q * string) := [(1, "Male"); (2, "Female")].

Definition sample_ldl : DataFrame :=
  mkDF 3
    {[ "tchol" := [Fin 220; Fin 180; Fin 250];
       "hdl" := [Fin 50; Fin 40; Fin 60];
       "trigly" := [Fin 150; Fin 400; Fin 450] ]}
    ∅.

(** A frame with cholesterol but without BMI, blood pressure, diabetes
    or smoking columns. *)
Definition sample_no_bmi : DataFrame :=
  mkDF 2 {[ "tchol" := [Fin 180; Fin 190] ]} ∅.

Definition sample_smoking : DataFrame :=
  mkDF 5
    {[ "smoke_100" := [Fin 2; Fin 1; Fin 1; NaN; Fin 1];
       "smoke_now" := [Fin 1; Fin 1; Fin 3; Fin 1; Fin 7] ]}
    ∅.

Definition sample_chd : DataFrame :=
  mkDF 4
    {[ "MCQ160C" := [Fin 1; Fin 2; NaN; NaN];
       "MCQ160D" := [Fin 2; Fin 2; Fin 2; NaN];
       "MCQ160E" := [Fin 2; Fin 2; Fin 2; Fin 2] ]}
    ∅.

Definition sample_iii : DataFrame :=
  mkDF 4
    {[ "DMARETHN" := [Fin 1; Fin 2; Fin 3; Fin 4];
       "HAD1" := [Fin 1; Fin 2; NaN; NaN];
       "HAD2" := [Fin 2; Fin 2; Fin 2; NaN];
       "HAD3" := [Fin 2; Fin 2; Fin 2; Fin 2] ]}
    ∅.

(** ** Further definitions for the pipeline as a whole *)

(** The derived-variable block of [main] in 02_harmonize_variables.py:
    each column is computed from the frame that already holds the
    columns assigned before it. *)
Definition main_derived_variables (combined : DataFrame) : DataFrame :=
  let combined :=
    df_set combined "chd_composite" (create_chd_composite combined continuous) in
  let combined := df_set combined "ldl_calc" (calculate_ldl combined) in
  let combined := df_set combined "hypertension" (define_hypertension combined) in
  let combined := df_set combined "diabetes" (define_diabetes combined) in
  let combined :=
    df_set combined "hyperlipidemia" (define_hyperlipidemia combined) in
  let combined := df_set combined "obesity" (define_obesity combined) in
  df_set combined "smoking_status" (define_smoking_status combined).

(** The number of valid records whose outcome is 1. *)
Definition count_cases (valid : list (fval * fval)) : nat :=
  length (List.filter (λ p, F.eqb p.1 (Fin 1)) valid).

(** The number of records tagged with [era]. *)
Definition era_count (eras : list string) (era : string) : nat :=
  length (List.filter id (str_eq eras era)).

(** Three valid records of weight 0. *)
Definition sample_all_zero_weight : DataFrame :=
  mkDF 3
    {[ "chd_composite" := [Fin 1; Fin 0; Fin 1];
       "WTMEC2YR" := [Fin 0; Fin 0; Fin 0] ]}
    ∅.

(** The columns that the derived-variable block of [main] assigns. *)
Definition derived_names : list string :=
  ["chd_composite"; "ldl_calc"; "hypertension"; "diabetes";
   "hyperlipidemia"; "obesity"; "smoking_status"].

(** Four records of one cycle as [main] combines them, the third with an
    unknown diagnosis and the fourth a minor; the frame carries a stale
    LDL column. *)
Definition sample_combined : DataFrame :=
  mkDF 4
    {[ "MCQ160C" := [Fin 1; Fin 2; NaN; Fin 2];
       "MCQ160D" := [Fin 2; Fin 2; Fin 2; Fin 2];
       "MCQ160E" := [Fin 2; Fin 2; Fin 2; Fin 2];
       "RIDAGEYR" := [Fin 64; Fin 35; Fin 50; Fin 17];
       "RIAGENDR" := [Fin 1; Fin 2; Fin 2; Fin 1];
       "WTMEC2YR" := [Fin 1200; Fin 800; Fin 950; Fin 700];
       "tchol" := [Fin 190; Fin 180; Fin 250; Fin 150];
       "hdl" := [Fin 40; Fin 50; Fin 60; Fin 50];
       "trigly" := [Fin 50; Fin 100; Fin 450; Fin 90];
       "ldl_calc" := [Fin 0; Fin 0; Fin 0; Fin 0] ]}
    {[ "era" := replicate 4 "Era2_1999-2006" ]}.

(** Three examined adults of one era, two of them with CHD, with two of
    the four risk-factor columns. *)
Definition sample_risk_factors : DataFrame :=
  mkDF 3
    {[ "chd_composite" := [Fin 1; Fin 0; Fin 1];
       "WTMEC2YR" := [Fin 2; Fin 1; Fin 1];
       "hypertension" := [Fin 1; Fin 1; Fin 0];
       "obesity" := [Fin 0; Fin 0; Fin 1] ]}
    {[ "era" := replicate 3 "Era2_1999-2006" ]}.

(** The column mapping that [harmonize_nhanes_iii] passes to
    [df.rename]. *)
Definition nhanes_iii_renames : list (string * string) :=
  [("SEQN", "SEQN"); ("HSAGEIR", "RIDAGEYR"); ("HSSEX", "RIAGENDR");
   ("DMARETHN", "RIDRETH1"); ("DMPPIR", "INDFMPIR");
   ("WTPFEX6", "WTMEC2YR"); ("SDPSTRA6", "SDMVSTRA");
   ("SDPPSU6", "SDMVPSU")].

(** Three adults of the 1988-1994 file, the third with a race code
    outside the recode table. *)
Definition sample_adult : DataFrame :=
  mkDF 3
    {[ "SEQN" := [Fin 3; Fin 4; Fin 9];
       "DMARETHN" := [Fin 1; Fin 3; Fin 7];
       "HSSEX" := [Fin 1; Fin 2; Fin 2];
       "HSAGEIR" := [Fin 21; Fin 32; Fin 48];
       "WTPFEX6" := [Fin 1500; Fin 2300; Fin 900];
       "HAD1" := [Fin 1; Fin 2; Fin 2];
       "HAD2" := [Fin 2; Fin 2; NaN];
       "HAD3" := [Fin 2; Fin 2; Fin 2] ]}
    ∅.

(** The number of records of [era] whose outcome is 1, as the analyzers
    slice them. *)
Definition era_cases (eras : list string) (chd : Series) (era : string)
  : nat :=
  length (List.filter id (mask_and (str_eq eras era) (series_eq chd (Fin 1)))).

(** Five adults of two eras after the exclusions, two of them with CHD. *)
Definition sample_two_eras : DataFrame :=
  mkDF 5
    {[ "chd_composite" := [Fin 1; Fin 0; Fin 0; Fin 1; Fin 0];
       "WTMEC2YR" := [Fin 2; Fin 1; Fin 1; Fin 3; Fin 1];
       "RIDAGEYR" := [Fin 64; Fin 35; Fin 50; Fin 71; Fin 28] ]}
    {[ "era" := ["Era3_2007-2014"; "Era2_1999-2006"; "Era3_2007-2014";
                 "Era2_1999-2006"; "Era3_2007-2014"] ]}.

(** The readings of record [i] in the columns whose name starts with
    [p], as [define_hypertension] averages them. *)
Definition readings (df : DataFrame) (p : string) (i : nat) : list fval :=
  omap (λ c, df_num df !! c ≫= (.!! i)) (columns_startswith df p).

(** A measurement that is a finite number or missing. *)
Definition finite_or_missing (x : fval) : Prop := x = NaN ∨ ∃ q, x = Fin q.

(** A criterion that is not met: the value is missing or below the
    threshold, respectively missing or different from the code. *)
Definition below (x : fval) (t : Q) : Prop :=
  x = NaN ∨ ∃ q, x = Fin q ∧ q < t.
Definition not_code (x : fval) (c : Q) : Prop :=
  x = NaN ∨ ∃ q, x = Fin q ∧ ¬ q == c.

(** A blood-pressure reading as the survey records it: a whole number
    of mm Hg, or missing. *)
Definition whole_or_missing (x : fval) : Prop :=
  x = NaN ∨ ∃ z : Z, (0 <= z)%Z ∧ x = Fin (inject_Z z).

(** The readings that are present, and the statement that their mean is
    at least [t]. *)
Definition available (vals : list fval) : list Q :=
  omap (λ x, match x with Fin q => Some q | _ => None end) vals.
Definition mean_at_least (vals : list fval) (t : Q) : Prop :=
  available vals ≠ [] ∧
  t * inject_Z (Z.of_nat (length (available vals)))
  <= foldl Qplus 0 (available vals).

(** An answer that is the code [c]. *)
Definition has_code (x : fval) (c : Q) : Prop := ∃ q, x = Fin q ∧ q == c.

(** Two records with three systolic and one diastolic reading each, some
    of them missing; the systolic readings of the second are 140 and
    119. *)
Definition sample_bp : DataFrame :=
  mkDF 2
    {[ "sbp1" := [Fin 142; NaN];
       "sbp2" := [NaN; Fin 119];
       "sbp3" := [Fin 136; Fin 140];
       "dbp1" := [NaN; Fin 72];
       "glucose" := [Fin 130; NaN];
       "hba1c" := [NaN; Fin (57 # 10)] ]}
    ∅.

(** ** The estimator's arithmetic on binary64

    Lines 52-62 of [calculate_survey_weighted_prevalence] for a
    non-empty list of valid records (outcome, weight), step for step as
    above, on IEEE 754 binary64 values: the kernel's floats, with
    rounding and overflow. A Series sum adds from left to right, as
    numpy does for fewer than eight addends. [max(0, x)] and
    [min(1, x)] are Python's: the first argument unless the second is
    strictly beyond it. *)
Module F64.
Import PrimFloat.

Record estimate : Type := mkEstimate {
  prevalence : float;
  se : float;
  ci_low : float;
  ci_high : float
}.

Definition sum (s : list float) : float := foldl add 0%float s.

Definition py_max (a x : float) : float := if ltb a x then x else a.
Definition py_min (a x : float) : float := if ltb x a then x else a.

Definition of_nat (k : nat) : float :=
  of_uint63 (Uint63.of_Z (Z.of_nat k)).






End F64.



(** * Properties *)

(** ** Float comparisons *)

Lemma F_eqb_eq x y : F.eqb x y = true ↔ F.eq x y.
Proof.
  destruct x, y; simpl; try (split; [discriminate | tauto]);
    try tauto. apply Qeq_bool_iff.
Qed.

(** ** Series combinators, row by row *)

Section rows.
Context (i : nat).

Lemma lookup_series_eq s v x :
  s !! i = Some x → series_eq s v !! i = Some (F.eqb x v).
Proof. intros H. unfold series_eq. by rewrite list_lookup_fmap, H. Qed.

Lemma lookup_series_ge s v x :
  s !! i = Some x → series_ge s v !! i = Some (F.geb x v).
Proof. intros H. unfold series_ge. by rewrite list_lookup_fmap, H. Qed.

Lemma lookup_series_isin s vs x :
  s !! i = Some x → series_isin s vs !! i = Some (existsb (F.eqb x) vs).
Proof. intros H. unfold series_isin. by rewrite list_lookup_fmap, H. Qed.

Lemma lookup_mask_or m1 m2 b1 b2 :
  m1 !! i = Some b1 → m2 !! i = Some b2 →
  mask_or m1 m2 !! i = Some (b1 || b2).
Proof. intros H1 H2. unfold mask_or. by rewrite lookup_zip_with, H1, H2. Qed.

Lemma lookup_mask_and m1 m2 b1 b2 :
  m1 !! i = Some b1 → m2 !! i = Some b2 →
  mask_and m1 m2 !! i = Some (b1 && b2).
Proof. intros H1 H2. unfold mask_and. by rewrite lookup_zip_with, H1, H2. Qed.

Lemma lookup_set_where s m v x (b : bool) :
  s !! i = Some x → m !! i = Some b →
  set_where s m v !! i = Some (if b then v else x).
Proof. intros H1 H2. unfold set_where. by rewrite lookup_zip_with, H1, H2. Qed.

Lemma lookup_astype_float m (b : bool) :
  m !! i = Some b → astype_float m !! i = Some (F.of_bool b).
Proof. intros H. unfold astype_float. by rewrite list_lookup_fmap, H. Qed.

Lemma lookup_series_sub s1 s2 x y :
  s1 !! i = Some x → s2 !! i = Some y →
  series_sub s1 s2 !! i = Some (F.sub x y).
Proof. intros H1 H2. unfold series_sub. by rewrite lookup_zip_with, H1, H2. Qed.

Lemma lookup_series_div_scalar s c x :
  s !! i = Some x → series_div_scalar s c !! i = Some (F.div x c).
Proof. intros H. unfold series_div_scalar. by rewrite list_lookup_fmap, H. Qed.

Lemma lookup_nan_series k : (i < k)%nat → nan_series k !! i = Some NaN.
Proof. apply lookup_replicate_2. Qed.
End rows.


(** ** The composite CHD outcome *)

Lemma is_yes_eqb x : is_yes x ↔ F.eqb x (Fin 1) = true.
Proof. symmetry. apply F_eqb_eq. Qed.

Lemma is_no_eqb x : is_no x ↔ F.eqb x (Fin 2) = true.
Proof. symmetry. apply F_eqb_eq. Qed.

Lemma yes_not_no x : F.eqb x (Fin 1) = true → F.eqb x (Fin 2) = false.
Proof.
  destruct x as [q| | |]; simpl; try done.
  intros H%Qeq_bool_iff. apply not_true_is_false.
  intros H'%Qeq_bool_iff. lra.
Qed.

Lemma chd_rule_tri_state a b c : tri_state a b c (chd_rule a b c).
Proof.
  unfold tri_state, chd_rule. rewrite !is_yes_eqb, !is_no_eqb.
  pose proof (yes_not_no a) as Ha.
  pose proof (yes_not_no b) as Hb.
  pose proof (yes_not_no c) as Hc.
  destruct (F.eqb a (Fin 1)), (F.eqb a (Fin 2)); try (by specialize (Ha eq_refl));
  destruct (F.eqb b (Fin 1)), (F.eqb b (Fin 2)); try (by specialize (Hb eq_refl));
  destruct (F.eqb c (Fin 1)), (F.eqb c (Fin 2)); try (by specialize (Hc eq_refl));
  simpl; intuition congruence.
Qed.

(** The four cases the specification lists for the composite. *)
Example chd_rule_cases :
  chd_rule (Fin 1) (Fin 2) (Fin 2) = Fin 1 ∧
  chd_rule (Fin 2) (Fin 2) (Fin 2) = Fin 0 ∧
  chd_rule NaN (Fin 2) (Fin 2) = NaN ∧
  chd_rule NaN NaN NaN = NaN.
Proof. by repeat split. Qed.

(** The two masked assignments, at one row. *)
Lemma chd_masks_row (c1 c2 c3 : Series) (k i : nat) a b c :
  c1 !! i = Some a → c2 !! i = Some b → c3 !! i = Some c → (i < k)%nat →
  set_where
    (set_where (nan_series k)
       (mask_or (mask_or (series_eq c1 (Fin 1)) (series_eq c2 (Fin 1)))
                (series_eq c3 (Fin 1)))
       (Fin 1))
    (mask_and (mask_and (series_eq c1 (Fin 2)) (series_eq c2 (Fin 2)))
              (series_eq c3 (Fin 2)))
    (Fin 0) !! i
  = Some (chd_rule a b c).
Proof.
  intros H1 H2 H3 Hk.
  erewrite lookup_set_where; cycle 1.
  - erewrite lookup_set_where; [reflexivity | by apply lookup_nan_series |].
    repeat (apply lookup_mask_or || apply lookup_series_eq); eassumption.
  - repeat (apply lookup_mask_and || apply lookup_series_eq); eassumption.
  - unfold chd_rule.
    pose proof (yes_not_no a) as Ya.
    pose proof (yes_not_no b) as Yb.
    pose proof (yes_not_no c) as Yc.
    destruct (F.eqb a (Fin 1)), (F.eqb a (Fin 2));
      try (by specialize (Ya eq_refl));
      destruct (F.eqb b (Fin 1)), (F.eqb b (Fin 2));
      try (by specialize (Yb eq_refl));
      destruct (F.eqb c (Fin 1)), (F.eqb c (Fin 2));
      try (by specialize (Yc eq_refl)); done.
Qed.

Lemma bind_lookup_Some {A} (o : option (list A)) i x :
  o ≫= (.!! i) = Some x ↔ ∃ s, o = Some s ∧ s !! i = Some x.
Proof.
  destruct o as [s|]; simpl; split.
  - eauto.
  - by intros (s' & [= <-] & ?).
  - intros [=].
  - by intros (s' & [=] & _).
Qed.

Lemma create_chd_composite_row df t i a b c :
  df_wf df → indicators_at df (CHD_VARS t) i a b c →
  create_chd_composite df t !! i = Some (chd_rule a b c).
Proof.
  intros [Hwf _] (Ha & Hb & Hc).
  apply bind_lookup_Some in Ha as (c1 & E1 & Ha).
  apply bind_lookup_Some in Hb as (c2 & E2 & Hb).
  apply bind_lookup_Some in Hc as (c3 & E3 & Hc).
  unfold create_chd_composite, df_get. rewrite E1, E2, E3. simpl.
  apply chd_masks_row; try done.
  rewrite <- (Hwf _ _ E1). by eapply lookup_lt_Some.
Qed.

(** Renaming columns leaves every column that the mapping does not name
    where it was. *)
Lemma rename_one_other {A} (m : gmap string A) old new k :
  k ≠ old → k ≠ new → rename_one m old new !! k = m !! k.
Proof.
  intros Ho Hn. unfold rename_one. destruct (m !! old); [|done].
  by rewrite lookup_insert_ne, lookup_delete_ne.
Qed.

Lemma rename_one_new {A} (m : gmap string A) old new x :
  m !! old = Some x → rename_one m old new !! new = Some x.
Proof. intros H. unfold rename_one. rewrite H. apply lookup_insert_eq. Qed.

Lemma rename_fold_other {A} (mapping : list (string * string)) k :
  Forall (λ p, k ≠ p.1 ∧ k ≠ p.2) mapping →
  ∀ m : gmap string A,
    foldl (λ m p, rename_one m p.1 p.2) m mapping !! k = m !! k.
Proof.
  induction 1 as [|p mapping [Hp1 Hp2] _ IH]; intros m; simpl; [done|].
  rewrite IH. by apply rename_one_other.
Qed.

Ltac names_differ := repeat constructor; simpl; discriminate.

Lemma df_col_lookup df name s :
  df_num df !! name = Some s → df_col df name = Ok s.
Proof. intros H. unfold df_col. by rewrite H. Qed.

Lemma df_col_Ok df name s :
  df_col df name = Ok s → df_num df !! name = Some s.
Proof. unfold df_col. by destruct (df_num df !! name); intros [=->]. Qed.

Lemma harmonize_nhanes_iii_chd df :
  is_Some (df_num df !! "DMARETHN") →
  is_Some (df_num df !! "HAD1") → is_Some (df_num df !! "HAD2") →
  is_Some (df_num df !! "HAD3") →
  ∃ df' had1 had2 had3,
    harmonize_nhanes_iii df = Ok df' ∧
    df_num df !! "HAD1" = Some had1 ∧ df_num df !! "HAD2" = Some had2 ∧
    df_num df !! "HAD3" = Some had3 ∧
    df_num df' !! "chd_composite" =
      Some
        (set_where
           (set_where (nan_series (df_len df))
              (mask_or (mask_or (series_eq had1 (Fin 1))
                                (series_eq had2 (Fin 1)))
                       (series_eq had3 (Fin 1)))
              (Fin 1))
           (mask_and (mask_and (series_eq had1 (Fin 2))
                               (series_eq had2 (Fin 2)))
                     (series_eq had3 (Fin 2)))
           (Fin 0)).
Proof.
  intros [race Hr] [had1 H1] [had2 H2] [had3 H3].
  unfold harmonize_nhanes_iii.
  set (mapping := [("SEQN", "SEQN"); _; _; _; _; _; _; _]).
  assert (Hother : ∀ k, Forall (λ p : string * string, k ≠ p.1 ∧ k ≠ p.2) mapping →
            df_num (df_rename df mapping) !! k = df_num df !! k).
  { intros k Hk. unfold df_rename. cbn [df_num]. by apply rename_fold_other. }
  assert (Hrace : df_num (df_rename df mapping) !! "RIDRETH1" = Some race).
  { unfold df_rename, mapping. simpl.
    rewrite !(rename_one_other _ _ _ "RIDRETH1") by discriminate.
    apply rename_one_new.
    by rewrite !(rename_one_other _ _ _ "DMARETHN") by discriminate. }
  assert (Hlen : df_len (df_rename df mapping) = df_len df) by done.
  cbv zeta. generalize dependent (df_rename df mapping). intros rdf Hother Hrace Hlen.
  rewrite (df_col_lookup _ _ _ Hrace). simpl.
  unfold df_col. simpl.
  rewrite !lookup_insert_ne by discriminate.
  rewrite !Hother by names_differ.
  rewrite H1, H2, H3. simpl.
  eexists _, had1, had2, had3. split; [reflexivity|].
  repeat (split; [done|]). simpl.
  rewrite !lookup_delete_ne by discriminate.
  rewrite !lookup_alter_eq, lookup_insert_eq, Hlen. reflexivity.
Qed.

Lemma indicators_lt df names i a b c :
  df_wf df → indicators_at df names i a b c → (i < df_len df)%nat.
Proof.
  intros [Hwf _] (Ha & _). apply bind_lookup_Some in Ha as (c1 & E1 & Ha).
  rewrite <- (Hwf _ _ E1). by eapply lookup_lt_Some.
Qed.

(** C1. In a frame holding the three yes/no CHD indicator columns, the
    composite of a record is Positive (1) exactly when one of its three
    indicators is Yes, Negative (0) exactly when all three are No, and
    missing in every other case; this holds for [create_chd_composite]
    under either naming and for the composite built inside
    [harmonize_nhanes_iii], which returns on a frame that has the race
    column to recode and no [RIDRETH1] column yet. A record with two
    missing indicators and one No is therefore missing, not Negative. *)
Theorem chd_composite_tri_state df i a b c :
  df_wf df →
  (∀ t, indicators_at df (CHD_VARS t) i a b c →
     ∃ v, create_chd_composite df t !! i = Some v ∧ tri_state a b c v) ∧
  (indicators_at df (CHD_VARS nhanes_iii) i a b c →
   is_Some (df_num df !! "DMARETHN") →
   df_num df !! "RIDRETH1" = None → df_str df !! "RIDRETH1" = None →
     ∃ df' s v, harmonize_nhanes_iii df = Ok df' ∧
       df_num df' !! "chd_composite" = Some s ∧ s !! i = Some v ∧
       tri_state a b c v) ∧
  (∀ v x, is_no x → tri_state NaN NaN x v → v = NaN).
Proof.
  intros Hwf. split; [|split].
  - intros t Hat. exists (chd_rule a b c). split.
    + by apply create_chd_composite_row.
    + apply chd_rule_tri_state.
  - intros Hat Hrace _ _.
    pose proof (indicators_lt _ _ _ _ _ _ Hwf Hat) as Hlt.
    destruct Hat as (Ha & Hb & Hc). simpl in Ha, Hb, Hc.
    apply bind_lookup_Some in Ha as (c1 & E1 & Ha).
    apply bind_lookup_Some in Hb as (c2 & E2 & Hb).
    apply bind_lookup_Some in Hc as (c3 & E3 & Hc).
    destruct (harmonize_nhanes_iii_chd df) as (df' & h1 & h2 & h3 & Hok & ? & ? & ? & Hcol);
      eauto.
    simplify_eq. eexists df', _, (chd_rule a b c).
    split; [done|]. split; [exact Hcol|]. split.
    + by apply chd_masks_row.
    + apply chd_rule_tri_state.
  - intros v x Hno (_ & _ & Hnan). apply Hnan. split.
    + intros [[]|[[]|Hy]]. apply is_yes_eqb in Hy. apply is_no_eqb in Hno.
      rewrite (yes_not_no _ Hy) in Hno. discriminate.
    + by intros [[] _].
Qed.

Lemma chd_composite_tri_state_witness :
  (∃ v, create_chd_composite sample_chd continuous !! 3%nat = Some v ∧
        tri_state NaN NaN (Fin 2) v) ∧
  (∃ df' s v, harmonize_nhanes_iii sample_iii = Ok df' ∧
     df_num df' !! "chd_composite" = Some s ∧ s !! 3%nat = Some v ∧
     tri_state NaN NaN (Fin 2) v).
Proof.
  split.
  - refine (proj1 (chd_composite_tri_state sample_chd 3 NaN NaN (Fin 2) _)
              continuous _).
    + compute_done.
    + by vm_compute.
  - refine (proj1 (proj2 (chd_composite_tri_state sample_iii 3 NaN NaN
                            (Fin 2) _)) _ _ _ _).
    + compute_done.
    + by vm_compute.
    + compute_done.
    + by vm_compute.
    + by vm_compute.
Defined.

(** ** Reading a possibly absent column *)

Lemma cell_Some df name i :
  df_wf df → (i < df_len df)%nat →
  ∃ x, cell df name i = Some x ∧ (df_num df !! name = None → x = NaN).
Proof.
  intros [Hwf _] Hi. unfold cell, df_get.
  destruct (df_num df !! name) as [s|] eqn:E; simpl.
  - destruct (lookup_lt_is_Some_2 s i) as [x Hx].
    { by rewrite (Hwf _ _ E). }
    exists x. split; [done | intros [=]].
  - exists NaN. split; [by apply lookup_nan_series | done].
Qed.

Lemma df_get_length df name :
  df_wf df → length (df_get df name (nan_series (df_len df))) = df_len df.
Proof.
  intros [Hwf _]. unfold df_get.
  destruct (df_num df !! name) as [s|] eqn:E; simpl.
  - by apply (Hwf _ _ E).
  - apply length_replicate.
Qed.

Lemma F_eqb_functional x p q :
  F.eqb x (Fin p) = true → F.eqb x (Fin q) = true → p == q.
Proof.
  destruct x as [a| | |]; simpl; try done.
  intros H1%Qeq_bool_iff H2%Qeq_bool_iff. by rewrite <- H1, <- H2.
Qed.

Lemma F_ltb_not_geb x y : F.ltb x y = true → F.geb x y = false.
Proof.
  unfold F.geb. destruct x as [a| | |], y as [b| | |]; simpl; try done.
  destruct (a ?= b) eqn:E; try done. intros _.
  apply not_true_is_false. intros H%Qle_bool_iff.
  apply Qlt_alt in E. lra.
Qed.

Lemma F_geb_Fin a b : F.geb (Fin a) (Fin b) = true ↔ b <= a.
Proof. unfold F.geb. simpl. apply Qle_bool_iff. Qed.

(** ** Calculated LDL *)

Lemma calculate_ldl_row df i tc hdl tg :
  cell df "tchol" i = Some tc → cell df "hdl" i = Some hdl →
  cell df "trigly" i = Some tg →
  calculate_ldl df !! i = Some (ldl_row tc hdl tg).
Proof.
  unfold cell, calculate_ldl, ldl_row. intros H1 H2 H3. cbv zeta.
  erewrite lookup_set_where; [reflexivity | |].
  - repeat (apply lookup_series_sub || apply lookup_series_div_scalar);
      eassumption.
  - by apply lookup_series_ge.
Qed.

(** C8. For every record, calculated LDL is TC - HDL - TG/5 when
    triglycerides are below 400 mg/dL and is forced to missing when
    triglycerides are 400 or more, whatever TC and HDL are. *)
Theorem calculate_ldl_friedewald df i :
  df_wf df → (i < df_len df)%nat →
  ∃ tc hdl tg v,
    cell df "tchol" i = Some tc ∧ cell df "hdl" i = Some hdl ∧
    cell df "trigly" i = Some tg ∧ calculate_ldl df !! i = Some v ∧
    (F.ltb tg (Fin 400) = true →
       v = F.sub (F.sub tc hdl) (F.div tg (Fin 5))) ∧
    (∀ a b c, tc = Fin a → hdl = Fin b → tg = Fin c → c < 400 →
       v = Fin (a - b - c / 5)) ∧
    (F.geb tg (Fin 400) = true → v = NaN) ∧
    (∀ c, tg = Fin c → 400 <= c → v = NaN).
Proof.
  intros Hwf Hi.
  destruct (cell_Some df "tchol" i Hwf Hi) as (tc & Htc & _).
  destruct (cell_Some df "hdl" i Hwf Hi) as (hdl & Hhdl & _).
  destruct (cell_Some df "trigly" i Hwf Hi) as (tg & Htg & _).
  exists tc, hdl, tg, (ldl_row tc hdl tg).
  repeat (split; [done|]). split; [by apply calculate_ldl_row|].
  unfold ldl_row. repeat split.
  - intros Hlt. by rewrite (F_ltb_not_geb _ _ Hlt).
  - intros a b c -> -> -> Hc.
    assert (F.geb (Fin c) (Fin 400) = false) as ->; [|reflexivity].
    apply not_true_is_false. intros H%F_geb_Fin. lra.
  - by intros ->.
  - intros c -> Hc. by rewrite (proj2 (F_geb_Fin c 400) Hc).
Qed.

Lemma calculate_ldl_friedewald_witness :
  (∃ v, calculate_ldl sample_ldl !! 0%nat = Some v ∧ F.eq v (Fin 140)) ∧
  calculate_ldl sample_ldl !! 1%nat = Some NaN ∧
  calculate_ldl sample_ldl !! 2%nat = Some NaN.
Proof.
  assert (Hwf : df_wf sample_ldl) by compute_done.
  split; [|split].
  - destruct (calculate_ldl_friedewald sample_ldl 0 Hwf)
      as (tc & hdl & tg & v & H1 & H2 & H3 & Hv & _ & Hfin & _).
    { vm_compute. lia. }
    exists v. split; [done|].
    injection H1 as <-. injection H2 as <-. injection H3 as <-.
    rewrite (Hfin 220 50 150); by vm_compute.
  - destruct (calculate_ldl_friedewald sample_ldl 1 Hwf)
      as (tc & hdl & tg & v & _ & _ & H3 & Hv & _ & _ & _ & Hhigh).
    { vm_compute. lia. }
    injection H3 as <-. rewrite Hv. f_equal. apply (Hhigh 400); by vm_compute.
  - destruct (calculate_ldl_friedewald sample_ldl 2 Hwf)
      as (tc & hdl & tg & v & _ & _ & H3 & Hv & _ & _ & _ & Hhigh).
    { vm_compute. lia. }
    injection H3 as <-. rewrite Hv. f_equal. apply (Hhigh 450); by vm_compute.
Defined.

(** ** Smoking status *)

Lemma define_smoking_status_row df i s100 snow :
  (i < df_len df)%nat →
  cell df "smoke_100" i = Some s100 → cell df "smoke_now" i = Some snow →
  define_smoking_status df !! i = Some (smoking_row s100 snow).
Proof.
  unfold cell, define_smoking_status, smoking_row. intros Hi H1 H2. cbv zeta.
  erewrite lookup_set_where; [reflexivity | |].
  - erewrite lookup_set_where; [reflexivity | |].
    + erewrite lookup_set_where; [reflexivity | |].
      * by apply lookup_nan_series.
      * by apply lookup_series_eq.
    + apply lookup_mask_and;
        [by apply lookup_series_eq | by apply lookup_series_isin].
  - apply lookup_mask_and; by apply lookup_series_eq.
Qed.

(** Two different codes cannot both equal the answer. *)
Ltac codes_clash :=
  match goal with
  | H1 : F.eqb ?x (Fin ?p) = true, H2 : F.eqb ?x (Fin ?q) = true |- _ =>
      let H := fresh in
      pose proof (F_eqb_functional x p q H1 H2) as H; vm_compute in H;
      discriminate H
  end.

Lemma smoking_row_spec s100 snow :
  let v := smoking_row s100 snow in
  (v = Fin 3 ↔ F.eq s100 (Fin 2)) ∧
  (v = Fin 1 ↔
     F.eq s100 (Fin 1) ∧ (F.eq snow (Fin 1) ∨ F.eq snow (Fin 2))) ∧
  (v = Fin 2 ↔ F.eq s100 (Fin 1) ∧ F.eq snow (Fin 3)) ∧
  (v = NaN ↔
     ¬ F.eq s100 (Fin 2) ∧
     ¬ (F.eq s100 (Fin 1) ∧ (F.eq snow (Fin 1) ∨ F.eq snow (Fin 2))) ∧
     ¬ (F.eq s100 (Fin 1) ∧ F.eq snow (Fin 3))).
Proof.
  unfold smoking_row. simpl existsb. rewrite <- !F_eqb_eq.
  destruct (F.eqb s100 (Fin 1)) eqn:L1, (F.eqb s100 (Fin 2)) eqn:L2;
    try codes_clash;
    destruct (F.eqb snow (Fin 1)) eqn:N1, (F.eqb snow (Fin 2)) eqn:N2;
    try codes_clash;
    destruct (F.eqb snow (Fin 3)) eqn:N3; try codes_clash;
    simpl; intuition congruence.
Qed.

(** C9. For every record, smoking status is Never (3) exactly when the
    lifetime indicator is No, whatever the current-smoking answer;
    Current (1) exactly when the lifetime indicator is Yes and the
    current answer is every day (1) or some days (2); Former (2) exactly
    when the lifetime indicator is Yes and the current answer is not at
    all (3); and missing for every other combination, a missing lifetime
    indicator included. *)
Theorem smoking_status_classification df i :
  df_wf df → (i < df_len df)%nat →
  ∃ s100 snow v,
    cell df "smoke_100" i = Some s100 ∧ cell df "smoke_now" i = Some snow ∧
    define_smoking_status df !! i = Some v ∧
    (v = Fin 3 ↔ F.eq s100 (Fin 2)) ∧
    (v = Fin 1 ↔
       F.eq s100 (Fin 1) ∧ (F.eq snow (Fin 1) ∨ F.eq snow (Fin 2))) ∧
    (v = Fin 2 ↔ F.eq s100 (Fin 1) ∧ F.eq snow (Fin 3)) ∧
    (v = NaN ↔
       ¬ F.eq s100 (Fin 2) ∧
       ¬ (F.eq s100 (Fin 1) ∧ (F.eq snow (Fin 1) ∨ F.eq snow (Fin 2))) ∧
       ¬ (F.eq s100 (Fin 1) ∧ F.eq snow (Fin 3))) ∧
    (s100 = NaN → v = NaN).
Proof.
  intros Hwf Hi.
  destruct (cell_Some df "smoke_100" i Hwf Hi) as (s100 & H100 & _).
  destruct (cell_Some df "smoke_now" i Hwf Hi) as (snow & Hnow & _).
  exists s100, snow, (smoking_row s100 snow).
  repeat (split; [done|]). split; [by apply define_smoking_status_row|].
  destruct (smoking_row_spec s100 snow) as (H1 & H2 & H3 & H4).
  repeat (split; [done|]). by intros ->.
Qed.

Lemma smoking_status_classification_witness :
  define_smoking_status sample_smoking !! 0%nat = Some (Fin 3) ∧
  define_smoking_status sample_smoking !! 3%nat = Some NaN.
Proof.
  assert (Hwf : df_wf sample_smoking) by compute_done.
  split.
  - destruct (smoking_status_classification sample_smoking 0 Hwf)
      as (s100 & snow & v & H1 & _ & Hv & Hnever & _).
    { vm_compute. lia. }
    injection H1 as <-. rewrite Hv. f_equal. apply Hnever. by vm_compute.
  - destruct (smoking_status_classification sample_smoking 3 Hwf)
      as (s100 & snow & v & H1 & _ & Hv & _ & _ & _ & _ & Hmiss).
    { vm_compute. lia. }
    injection H1 as <-. rewrite Hv. f_equal. by apply Hmiss.
Defined.

(** ** Absent source columns *)

Lemma Forall_rows (P : fval → Prop) (s : Series) k :
  length s = k →
  (∀ i, (i < k)%nat → ∃ v, s !! i = Some v ∧ P v) →
  Forall P s.
Proof.
  intros Hlen Hrow. apply Forall_lookup. intros i x Hx.
  destruct (Hrow i) as (v & Hv & HP).
  { rewrite <- Hlen. by eapply lookup_lt_Some. }
  congruence.
Qed.

Lemma length_nan_series k : length (nan_series k) = k.
Proof. apply length_replicate. Qed.

Lemma length_mean_bp df p : length (mean_bp df p) = df_len df.
Proof.
  unfold mean_bp. destruct (columns_startswith df p).
  - apply length_nan_series.
  - unfold mean_axis1. by rewrite length_fmap, length_seq.
Qed.

Lemma mean_bp_row df p i :
  (i < df_len df)%nat →
  ∃ m, mean_bp df p !! i = Some m ∧
       (columns_startswith df p = [] → m = NaN).
Proof.
  intros Hi. unfold mean_bp. destruct (columns_startswith df p) as [|c cols].
  - exists NaN. split; [by apply lookup_nan_series | done].
  - unfold mean_axis1. rewrite list_lookup_fmap, lookup_seq_lt by done.
    simpl. eexists. split; [reflexivity | done].
Qed.

Ltac series_length Hwf :=
  unfold set_where, mask_or, mask_and, series_eq, series_ge, series_isin,
    astype_float, series_sub, series_div_scalar;
  repeat (rewrite length_zip_with || rewrite length_fmap ||
          rewrite length_nan_series || rewrite length_mean_bp ||
          rewrite (df_get_length _ _ Hwf));
  lia.

Lemma define_hypertension_unfold df :
  define_hypertension df =
  astype_float
    (mask_or (mask_or (series_ge (mean_bp df "sbp") (Fin 130))
                      (series_ge (mean_bp df "dbp") (Fin 80)))
             (series_eq (df_get df "bp_med" (nan_series (df_len df)))
                        (Fin 1))).
Proof.
  unfold define_hypertension, mean_bp.
  by destruct (columns_startswith df "sbp"), (columns_startswith df "dbp").
Qed.

Lemma derived_lengths df t :
  df_wf df →
  length (create_chd_composite df t) = df_len df ∧
  length (calculate_ldl df) = df_len df ∧
  length (define_hypertension df) = df_len df ∧
  length (define_diabetes df) = df_len df ∧
  length (define_hyperlipidemia df) = df_len df ∧
  length (define_obesity df) = df_len df ∧
  length (define_smoking_status df) = df_len df.
Proof.
  intros Hwf. rewrite define_hypertension_unfold.
  unfold create_chd_composite, calculate_ldl, define_diabetes,
    define_hyperlipidemia, define_obesity, define_smoking_status.
  cbv zeta. repeat split; series_length Hwf.
Qed.

Lemma astype_float_definite m : definite (astype_float m).
Proof.
  unfold definite, astype_float. apply Forall_fmap, Forall_forall.
  intros [] _; simpl; auto.
Qed.

Lemma create_chd_composite_cell df t i a b c :
  (i < df_len df)%nat →
  cell df (chd (CHD_VARS t)) i = Some a →
  cell df (angina (CHD_VARS t)) i = Some b →
  cell df (mi (CHD_VARS t)) i = Some c →
  create_chd_composite df t !! i = Some (chd_rule a b c).
Proof. intros Hi Ha Hb Hc. by apply chd_masks_row. Qed.

Lemma chd_rule_nan_not_negative a b c :
  a = NaN ∨ b = NaN ∨ c = NaN → chd_rule a b c ≠ Fin 0.
Proof.
  unfold chd_rule.
  intros [->|[->| ->]]; simpl; rewrite ?andb_false_r; simpl;
    by destruct (_ || _).
Qed.

Lemma chd_absent_not_negative df t :
  df_wf df →
  df_num df !! chd (CHD_VARS t) = None ∨
  df_num df !! angina (CHD_VARS t) = None ∨
  df_num df !! mi (CHD_VARS t) = None →
  Forall (λ v, v ≠ Fin 0) (create_chd_composite df t).
Proof.
  intros Hwf Habs.
  apply (Forall_rows _ _ (df_len df)); [by apply derived_lengths|].
  intros i Hi.
  destruct (cell_Some df (chd (CHD_VARS t)) i Hwf Hi) as (a & Ha & Na).
  destruct (cell_Some df (angina (CHD_VARS t)) i Hwf Hi) as (b & Hb & Nb).
  destruct (cell_Some df (mi (CHD_VARS t)) i Hwf Hi) as (c & Hc & Nc).
  exists (chd_rule a b c). split; [by apply create_chd_composite_cell|].
  apply chd_rule_nan_not_negative. tauto.
Qed.

Lemma chd_all_absent_missing df t :
  df_wf df →
  df_num df !! chd (CHD_VARS t) = None →
  df_num df !! angina (CHD_VARS t) = None →
  df_num df !! mi (CHD_VARS t) = None →
  entirely_missing (create_chd_composite df t).
Proof.
  intros Hwf A1 A2 A3.
  apply (Forall_rows _ _ (df_len df)); [by apply derived_lengths|].
  intros i Hi.
  destruct (cell_Some df (chd (CHD_VARS t)) i Hwf Hi) as (a & Ha & Na).
  destruct (cell_Some df (angina (CHD_VARS t)) i Hwf Hi) as (b & Hb & Nb).
  destruct (cell_Some df (mi (CHD_VARS t)) i Hwf Hi) as (c & Hc & Nc).
  exists (chd_rule a b c). split; [by apply create_chd_composite_cell|].
  by rewrite (Na A1), (Nb A2), (Nc A3).
Qed.

Lemma F_sub_nan_r x : F.sub x NaN = NaN.
Proof. by destruct x. Qed.

Lemma ldl_absent_missing df :
  df_wf df →
  df_num df !! "tchol" = None ∨ df_num df !! "hdl" = None ∨
  df_num df !! "trigly" = None →
  entirely_missing (calculate_ldl df).
Proof.
  intros Hwf Habs.
  apply (Forall_rows _ _ (df_len df)).
  { by apply (derived_lengths df continuous). }
  intros i Hi.
  destruct (cell_Some df "tchol" i Hwf Hi) as (tc & Htc & Ntc).
  destruct (cell_Some df "hdl" i Hwf Hi) as (hdl & Hhdl & Nhdl).
  destruct (cell_Some df "trigly" i Hwf Hi) as (tg & Htg & Ntg).
  exists (ldl_row tc hdl tg). split; [by apply calculate_ldl_row|].
  unfold ldl_row. destruct (F.geb tg (Fin 400)); [done|].
  destruct Habs as [A|[A|A]].
  - by rewrite (Ntc A).
  - rewrite (Nhdl A). by rewrite F_sub_nan_r.
  - rewrite (Ntg A). simpl. by rewrite F_sub_nan_r.
Qed.

Lemma smoking_absent_missing df :
  df_wf df → df_num df !! "smoke_100" = None →
  entirely_missing (define_smoking_status df).
Proof.
  intros Hwf Habs.
  apply (Forall_rows _ _ (df_len df)).
  { by apply (derived_lengths df continuous). }
  intros i Hi.
  destruct (cell_Some df "smoke_100" i Hwf Hi) as (s100 & H100 & N100).
  destruct (cell_Some df "smoke_now" i Hwf Hi) as (snow & Hnow & _).
  exists (smoking_row s100 snow).
  split; [by apply define_smoking_status_row|]. by rewrite (N100 Habs).
Qed.

Lemma define_obesity_row df i bmi :
  cell df "bmi" i = Some bmi →
  define_obesity df !! i = Some (F.of_bool (F.geb bmi (Fin 30))).
Proof.
  unfold cell, define_obesity. intros H.
  by apply lookup_astype_float, lookup_series_ge.
Qed.

Lemma define_hyperlipidemia_row df i tchol ldl :
  cell df "tchol" i = Some tchol → cell df "ldl_calc" i = Some ldl →
  define_hyperlipidemia df !! i =
    Some (F.of_bool (F.geb tchol (Fin 200) || F.geb ldl (Fin 130))).
Proof.
  unfold cell, define_hyperlipidemia. intros H1 H2.
  apply lookup_astype_float, lookup_mask_or; by apply lookup_series_ge.
Qed.

Lemma define_diabetes_row df i hba1c glucose insulin oral told :
  cell df "hba1c" i = Some hba1c → cell df "glucose" i = Some glucose →
  cell df "insulin_use" i = Some insulin →
  cell df "oral_dm_med" i = Some oral →
  cell df "diabetes_told" i = Some told →
  define_diabetes df !! i =
    Some (F.of_bool (F.geb hba1c (Fin (65 # 10)) || F.geb glucose (Fin 126)
                     || F.eqb insulin (Fin 1) || F.eqb oral (Fin 1)
                     || F.eqb told (Fin 1))).
Proof.
  unfold cell, define_diabetes. intros H1 H2 H3 H4 H5.
  apply lookup_astype_float.
  repeat apply lookup_mask_or;
    (by apply lookup_series_ge) || (by apply lookup_series_eq).
Qed.

Lemma define_hypertension_row df i m_sbp m_dbp med :
  mean_bp df "sbp" !! i = Some m_sbp → mean_bp df "dbp" !! i = Some m_dbp →
  cell df "bp_med" i = Some med →
  define_hypertension df !! i =
    Some (F.of_bool (F.geb m_sbp (Fin 130) || F.geb m_dbp (Fin 80)
                     || F.eqb med (Fin 1))).
Proof.
  rewrite define_hypertension_unfold. unfold cell. intros H1 H2 H3.
  apply lookup_astype_float.
  repeat apply lookup_mask_or;
    (by apply lookup_series_ge) || (by apply lookup_series_eq).
Qed.

Lemma obesity_absent_zero df :
  df_wf df → df_num df !! "bmi" = None → entirely_zero (define_obesity df).
Proof.
  intros Hwf A. apply (Forall_rows _ _ (df_len df)).
  { by apply (derived_lengths df continuous). }
  intros i Hi. destruct (cell_Some df "bmi" i Hwf Hi) as (bmi & H & N).
  eexists. split; [by apply define_obesity_row|]. by rewrite (N A).
Qed.

Lemma hyperlipidemia_absent_zero df :
  df_wf df → df_num df !! "tchol" = None → df_num df !! "ldl_calc" = None →
  entirely_zero (define_hyperlipidemia df).
Proof.
  intros Hwf A1 A2. apply (Forall_rows _ _ (df_len df)).
  { by apply (derived_lengths df continuous). }
  intros i Hi.
  destruct (cell_Some df "tchol" i Hwf Hi) as (x1 & H1 & N1).
  destruct (cell_Some df "ldl_calc" i Hwf Hi) as (x2 & H2 & N2).
  eexists. split; [by apply define_hyperlipidemia_row|].
  by rewrite (N1 A1), (N2 A2).
Qed.

Lemma diabetes_absent_zero df :
  df_wf df →
  df_num df !! "hba1c" = None → df_num df !! "glucose" = None →
  df_num df !! "insulin_use" = None → df_num df !! "oral_dm_med" = None →
  df_num df !! "diabetes_told" = None →
  entirely_zero (define_diabetes df).
Proof.
  intros Hwf A1 A2 A3 A4 A5. apply (Forall_rows _ _ (df_len df)).
  { by apply (derived_lengths df continuous). }
  intros i Hi.
  destruct (cell_Some df "hba1c" i Hwf Hi) as (x1 & H1 & N1).
  destruct (cell_Some df "glucose" i Hwf Hi) as (x2 & H2 & N2).
  destruct (cell_Some df "insulin_use" i Hwf Hi) as (x3 & H3 & N3).
  destruct (cell_Some df "oral_dm_med" i Hwf Hi) as (x4 & H4 & N4).
  destruct (cell_Some df "diabetes_told" i Hwf Hi) as (x5 & H5 & N5).
  eexists. split; [by apply define_diabetes_row|].
  by rewrite (N1 A1), (N2 A2), (N3 A3), (N4 A4), (N5 A5).
Qed.

Lemma hypertension_absent_zero df :
  df_wf df →
  columns_startswith df "sbp" = [] → columns_startswith df "dbp" = [] →
  df_num df !! "bp_med" = None →
  entirely_zero (define_hypertension df).
Proof.
  intros Hwf A1 A2 A3. apply (Forall_rows _ _ (df_len df)).
  { by apply (derived_lengths df continuous). }
  intros i Hi.
  destruct (mean_bp_row df "sbp" i Hi) as (x1 & H1 & N1).
  destruct (mean_bp_row df "dbp" i Hi) as (x2 & H2 & N2).
  destruct (cell_Some df "bp_med" i Hwf Hi) as (x3 & H3 & N3).
  eexists. split; [by apply define_hypertension_row|].
  by rewrite (N1 A1), (N2 A2), (N3 A3).
Qed.

(** C4, what the code does. With a source column absent no derived
    variable raises: each returns one value per record. LDL is then
    entirely missing, smoking status is entirely missing when the
    lifetime column is absent, and the CHD composite is never Negative
    (entirely missing when all three indicators are absent). The four
    boolean composites lose the missing marker: the absent column is
    read as missing, but the comparison with a missing value is false
    and the conversion of the mask gives 0, so that hypertension,
    diabetes, hyperlipidemia and obesity hold only 0 and 1 and are
    entirely 0 when all of their source columns are absent, where the
    specification asks for an entirely missing column. *)
Theorem derived_variables_absent_columns df t :
  df_wf df →
  (length (create_chd_composite df t) = df_len df ∧
   length (calculate_ldl df) = df_len df ∧
   length (define_hypertension df) = df_len df ∧
   length (define_diabetes df) = df_len df ∧
   length (define_hyperlipidemia df) = df_len df ∧
   length (define_obesity df) = df_len df ∧
   length (define_smoking_status df) = df_len df) ∧
  (df_num df !! "tchol" = None ∨ df_num df !! "hdl" = None ∨
   df_num df !! "trigly" = None → entirely_missing (calculate_ldl df)) ∧
  (df_num df !! "smoke_100" = None →
   entirely_missing (define_smoking_status df)) ∧
  (df_num df !! chd (CHD_VARS t) = None ∨
   df_num df !! angina (CHD_VARS t) = None ∨
   df_num df !! mi (CHD_VARS t) = None →
   Forall (λ v, v ≠ Fin 0) (create_chd_composite df t)) ∧
  (df_num df !! chd (CHD_VARS t) = None →
   df_num df !! angina (CHD_VARS t) = None →
   df_num df !! mi (CHD_VARS t) = None →
   entirely_missing (create_chd_composite df t)) ∧
  (definite (define_hypertension df) ∧ definite (define_diabetes df) ∧
   definite (define_hyperlipidemia df) ∧ definite (define_obesity df)) ∧
  (df_num df !! "bmi" = None → entirely_zero (define_obesity df)) ∧
  (df_num df !! "tchol" = None → df_num df !! "ldl_calc" = None →
   entirely_zero (define_hyperlipidemia df)) ∧
  (df_num df !! "hba1c" = None → df_num df !! "glucose" = None →
   df_num df !! "insulin_use" = None → df_num df !! "oral_dm_med" = None →
   df_num df !! "diabetes_told" = None →
   entirely_zero (define_diabetes df)) ∧
  (columns_startswith df "sbp" = [] → columns_startswith df "dbp" = [] →
   df_num df !! "bp_med" = None → entirely_zero (define_hypertension df)).
Proof.
  intros Hwf. split; [by apply derived_lengths|].
  split; [by apply ldl_absent_missing|].
  split; [by apply smoking_absent_missing|].
  split; [by apply chd_absent_not_negative|].
  split; [by apply chd_all_absent_missing|].
  split.
  { rewrite define_hypertension_unfold.
    repeat split; apply astype_float_definite. }
  split; [by apply obesity_absent_zero|].
  split; [by apply hyperlipidemia_absent_zero|].
  split; [by apply diabetes_absent_zero|].
  by apply hypertension_absent_zero.
Qed.

Lemma derived_variables_absent_columns_witness :
  entirely_missing (calculate_ldl sample_no_bmi) ∧
  entirely_missing (define_smoking_status sample_no_bmi) ∧
  entirely_missing (create_chd_composite sample_no_bmi continuous) ∧
  entirely_zero (define_obesity sample_no_bmi) ∧
  entirely_zero (define_diabetes sample_no_bmi) ∧
  entirely_zero (define_hypertension sample_no_bmi).
Proof.
  assert (Hwf : df_wf sample_no_bmi) by compute_done.
  destruct (derived_variables_absent_columns sample_no_bmi continuous Hwf)
    as (_ & Hldl & Hsmoke & _ & Hchd & _ & Hob & _ & Hdm & Hhtn).
  split; [apply Hldl; right; left; by vm_compute|].
  split; [apply Hsmoke; by vm_compute|].
  split; [apply Hchd; by vm_compute|].
  split; [apply Hob; by vm_compute|].
  split; [apply Hdm; by vm_compute|].
  apply Hhtn; by vm_compute.
Defined.

(** C4 fails on this input: without a BMI column, obesity is 0 for
    every record, not missing. *)
Lemma derived_variables_missing_counterexample :
  df_wf sample_no_bmi ∧ df_num sample_no_bmi !! "bmi" = None ∧
  define_obesity sample_no_bmi = [Fin 0; Fin 0] ∧
  ¬ entirely_missing (define_obesity sample_no_bmi).
Proof.
  split; [compute_done|]. split; [by vm_compute|]. split; [by vm_compute|].
  intros H. apply Forall_cons_1 in H as [H _]. vm_compute in H. discriminate.
Qed.

(** ** The reference population table *)

Lemma Qlt_bool_iff a b : Qlt_bool a b = true ↔ a < b.
Proof.
  unfold Qlt_bool. rewrite Qlt_alt. destruct (a ?= b); intuition congruence.
Qed.

Lemma foldl_Qplus_mono (l : list Q) t t' :
  t <= t' → foldl Qplus t l <= foldl Qplus t' l.
Proof.
  revert t t'. induction l as [|w l IH]; intros t t' Ht; simpl; [done|].
  apply IH. lra.
Qed.

Lemma foldl_Qplus_ge (l : list Q) t :
  Forall (λ w, 0 < w) l → t <= foldl Qplus t l.
Proof.
  intros Hpos. revert t. induction Hpos as [|w l Hw _ IH]; intros t; simpl.
  - lra.
  - specialize (IH (t + w)). lra.
Qed.

Lemma foldl_Qplus_filter_le (P : string * Q → bool) (l : list (string * Q)) t :
  Forall (λ e, 0 < e.2) l →
  foldl Qplus t ((List.filter P l).*2) <= foldl Qplus t (l.*2).
Proof.
  intros Hpos. revert t.
  induction Hpos as [|e l He _ IH]; intros t; simpl; [lra|].
  destruct (P e); simpl.
  - apply IH.
  - eapply Qle_trans; [apply IH|].
    apply foldl_Qplus_mono. cbv beta in He. lra.
Qed.

Lemma foldl_Qplus_filter_pos (P : string * Q → bool) (l : list (string * Q)) t :
  Forall (λ e, 0 < e.2) l → List.filter P l ≠ [] →
  t < foldl Qplus t ((List.filter P l).*2).
Proof.
  intros Hpos Hne.
  assert (Hf : Forall (λ w, 0 < w) ((List.filter P l).*2)).
  { apply Forall_fmap, Forall_forall. intros e He.
    apply list_elem_of_In, filter_In in He as [He _].
    apply list_elem_of_In in He.
    by apply (proj1 (Forall_forall _ _) Hpos). }
  destruct (List.filter P l) as [|e k]; [done|]. simpl in *.
  apply Forall_cons_1 in Hf as [He Hk].
  pose proof (foldl_Qplus_ge _ (t + e.2) Hk). lra.
Qed.

Lemma US_STD_2000_positive : Forall (λ e : string * Q, 0 < e.2) US_STD_2000.
Proof. unfold US_STD_2000. repeat constructor. Qed.

(** C3, as the code has it. The reference table holds the seven buckets
    20-29 to 80+ with strictly positive weights, and these weights sum
    to 0.6279, not to 1. *)
Theorem US_STD_2000_sum :
  US_STD_2000.*1 =
    ["20-29"; "30-39"; "40-49"; "50-59"; "60-69"; "70-79"; "80+"] ∧
  Forall (λ e : string * Q, 0 < e.2) US_STD_2000 ∧
  US_STD_2000_total == 6279 # 10000 ∧
  US_STD_2000_total < 1.
Proof.
  split; [reflexivity|]. split; [apply US_STD_2000_positive|].
  split; by vm_compute.
Qed.

(** C3 as stated fails: the weights do not sum to 1. *)
Lemma US_STD_2000_not_normalized : ¬ (US_STD_2000_total == 1).
Proof. by vm_compute. Qed.

(** ** Age standardization *)

Lemma age_standardize_loop_fold m (l : list (string * Q)) s t :
  foldl (age_standardize_loop m) (s, t) l =
  (foldl F.add s
     ((λ e, F.mul (default NaN (m !! e.1)) (Fin e.2)) <$>
        List.filter (λ e, bool_decide (is_Some (m !! e.1))) l),
   foldl Qplus t
     ((List.filter (λ e, bool_decide (is_Some (m !! e.1))) l).*2)).
Proof.
  revert s t. induction l as [|e l IH]; intros s t; simpl; [done|].
  destruct (bool_decide (is_Some (m !! e.1))) eqn:B.
  - apply bool_decide_eq_true in B as [p E].
    unfold age_standardize_loop at 2. rewrite E. simpl. rewrite E. apply IH.
  - apply bool_decide_eq_false in B.
    unfold age_standardize_loop at 2.
    destruct (m !! e.1) as [p|] eqn:E; [exfalso; eauto|]. apply IH.
Qed.

Lemma age_standardize_eq m :
  age_standardize m =
  if Qlt_bool 0 (weight_part m) && Qlt_bool (weight_part m) 1
  then F.div (weighted_part m) (Fin (weight_part m))
  else weighted_part m.
Proof.
  unfold age_standardize. by rewrite age_standardize_loop_fold.
Qed.

Lemma weight_part_lt_1 m : weight_part m < 1.
Proof.
  unfold weight_part, present_buckets.
  eapply Qle_lt_trans.
  - apply foldl_Qplus_filter_le, US_STD_2000_positive.
  - by vm_compute.
Qed.

Lemma weight_part_pos m : present_buckets m ≠ [] → 0 < weight_part m.
Proof.
  intros Hne. unfold weight_part.
  by apply foldl_Qplus_filter_pos; [apply US_STD_2000_positive|].
Qed.

Lemma analyze_era_age_std sqrtQ df eras era row :
  analyze_era sqrtQ df eras era = Ok row →
  ∃ age_prev,
    era_age_prev sqrtQ (df_filter df (str_eq eras era)) = Ok age_prev ∧
    er_age_std_prevalence row =
      if decide (age_prev = ∅) then NaN else age_standardize age_prev.
Proof.
  unfold analyze_era. cbv zeta.
  destruct (calculate_survey_weighted_prevalence _ _ _ _) as [prev|];
    simpl; [|done].
  destruct (era_age_prev _ _) as [age_prev|]; simpl; [|done].
  destruct (get_n_cases prev) as [cases|]; simpl; [|done].
  intros [= <-]. by exists age_prev.
Qed.

(** C5, as the code has it. [age_standardize] sums prevalence[b] ×
    referenceWeight[b] over the reference buckets present in the input
    and, whenever at least one is present, divides by the sum of the
    reference weights of those buckets (a sum that is always below 1).
    For an input with no reference bucket, the empty mapping included,
    the function returns 0; the undefined sentinel comes from the era
    analyzer, which does not call [age_standardize] on an empty
    mapping. *)
Theorem age_standardize_spec m :
  (present_buckets m ≠ [] →
     0 < weight_part m ∧ weight_part m < 1 ∧
     age_standardize m = F.div (weighted_part m) (Fin (weight_part m))) ∧
  (present_buckets m = [] → age_standardize m = Fin 0) ∧
  age_standardize ∅ = Fin 0 ∧
  (∀ sqrtQ df eras era row,
     analyze_era sqrtQ df eras era = Ok row →
     ∃ age_prev,
       era_age_prev sqrtQ (df_filter df (str_eq eras era)) = Ok age_prev ∧
       (age_prev = ∅ → er_age_std_prevalence row = NaN) ∧
       (age_prev ≠ ∅ →
          er_age_std_prevalence row = age_standardize age_prev)).
Proof.
  split; [|split; [|split]].
  - intros Hne. pose proof (weight_part_pos m Hne) as Hpos.
    pose proof (weight_part_lt_1 m) as Hlt.
    repeat split; try done.
    rewrite age_standardize_eq.
    by rewrite (proj2 (Qlt_bool_iff _ _) Hpos), (proj2 (Qlt_bool_iff _ _) Hlt).
  - intros He. rewrite age_standardize_eq.
    unfold weight_part, weighted_part. rewrite He. reflexivity.
  - reflexivity.
  - intros sqrtQ df eras era row Hrow.
    destruct (analyze_era_age_std _ _ _ _ _ Hrow) as (age_prev & Hap & Hstd).
    exists age_prev. split; [done|]. rewrite Hstd.
    split; intros H; by destruct (decide (age_prev = ∅)).
Qed.

Lemma age_standardize_spec_witness :
  F.eq (age_standardize {[ "20-29" := Fin (5 # 100);
                            "30-39" := Fin (7 # 100) ]})
       (Fin (((5 # 100) * (1318 # 10000) + (7 # 100) * (1342 # 10000))
             / ((1318 # 10000) + (1342 # 10000)))).
Proof.
  destruct (age_standardize_spec
              {[ "20-29" := Fin (5 # 100); "30-39" := Fin (7 # 100) ]})
    as (Hpresent & _).
  destruct Hpresent as (_ & _ & ->); by vm_compute.
Defined.

(** C5 as stated fails: on the empty mapping [age_standardize] returns
    the number 0, not the undefined sentinel. *)
Lemma age_standardize_empty_counterexample :
  age_standardize ∅ = Fin 0 ∧ age_standardize ∅ ≠ NaN.
Proof. split; [reflexivity | discriminate]. Qed.

(** ** The survey-weighted estimator *)

Lemma estimator_empty sqrtQ df outcome weight o w :
  df_num df !! outcome = Some o → df_num df !! weight = Some w →
  dropna2 o w = [] →
  calculate_survey_weighted_prevalence sqrtQ df outcome weight
  = Ok empty_estimate.
Proof.
  intros Ho Hw Hv. unfold calculate_survey_weighted_prevalence.
  rewrite (df_col_lookup _ _ _ Ho). simpl.
  rewrite (df_col_lookup _ _ _ Hw). simpl. by rewrite Hv.
Qed.

Lemma estimator_nonempty sqrtQ df outcome weight o w cases :
  df_num df !! outcome = Some o → df_num df !! weight = Some w →
  dropna2 o w ≠ [] →
  py_int (F.sum (fst <$> dropna2 o w)) = Ok cases →
  ∃ r, calculate_survey_weighted_prevalence sqrtQ df outcome weight = Ok r ∧
    n r = length (dropna2 o w) ∧
    prevalence r =
      F.div (F.sum ((λ p, F.mul p.1 p.2) <$> dropna2 o w))
            (F.sum (snd <$> dropna2 o w)) ∧
    se r =
      np_sqrt sqrtQ
        (F.div (F.mul (prevalence r) (F.sub (Fin 1) (prevalence r)))
               (of_nat (n r))) ∧
    ci_low r =
      F.py_max (Fin 0)
        (F.sub (prevalence r) (F.mul (Fin (196 # 100)) (se r))) ∧
    ci_high r =
      F.py_min (Fin 1)
        (F.add (prevalence r) (F.mul (Fin (196 # 100)) (se r))) ∧
    n_cases r = Some cases.
Proof.
  intros Ho Hw Hv Hc. unfold calculate_survey_weighted_prevalence.
  rewrite (df_col_lookup _ _ _ Ho). simpl.
  rewrite (df_col_lookup _ _ _ Hw). simpl.
  destruct (dropna2 o w) as [|p valid] eqn:E; [done|].
  cbn [length Nat.eqb]. cbv zeta. rewrite Hc. simpl.
  eexists. split; [reflexivity|]. by repeat split.
Qed.



Lemma F_sum_finite (l : list fval) a :
  Forall (λ x, ∃ q, x = Fin q) l → ∃ s, foldl F.add (Fin a) l = Fin s.
Proof.
  intros H. revert a. induction H as [|x l [q ->] _ IH]; intros a; simpl.
  - by exists a.
  - apply IH.
Qed.

Lemma F_sum_foldl (l : list fval) :
  Forall (λ x, ∃ q, x = Fin q) l → F.sum l = foldl F.add (Fin 0) l.
Proof.
  intros H. unfold F.sum. f_equal.
  induction H as [|x l [q ->] _ IH]; simpl; [done | by rewrite IH].
Qed.

Lemma py_int_finite_outcomes (valid : list (fval * fval)) :
  Forall finite_outcome valid → ∃ c, py_int (F.sum (fst <$> valid)) = Ok c.
Proof.
  intros H.
  assert (Hfin : Forall (λ x, ∃ q, x = Fin q) (fst <$> valid)).
  { apply Forall_fmap. eapply Forall_impl; [exact H|].
    intros p [q Hq]. exists q. exact Hq. }
  destruct (F_sum_finite (fst <$> valid) 0 Hfin) as [s Hs].
  rewrite (F_sum_foldl _ Hfin), Hs. simpl. eauto.
Qed.

Lemma select_fmap_Forall {A} (f : A → bool) (s : list A) :
  Forall (λ x, f x = true) (select (f <$> s) s).
Proof.
  unfold select. induction s as [|x s IH]; simpl; [constructor|].
  destruct (f x) eqn:E; simpl; [by constructor | done].
Qed.





(** C6. On an empty set of valid records the estimator returns, without
    raising, sample size 0 and NaN for the point estimate, the standard
    error and both confidence bounds, but the returned dict has no
    ["n_cases"] entry at all, so that reading the case count, as every
    caller does, raises KeyError: the risk-factor table of an era without
    CHD cases cannot be computed. *)
Theorem estimator_empty_lacks_case_count :
  calculate_survey_weighted_prevalence sqrt_floor (cohort 0)
    "chd_composite" "WTMEC2YR" = Ok empty_estimate ∧
  n empty_estimate = 0%nat ∧
  prevalence empty_estimate = NaN ∧ se empty_estimate = NaN ∧
  ci_low empty_estimate = NaN ∧ ci_high empty_estimate = NaN ∧
  n_cases empty_estimate = None ∧
  get_n_cases empty_estimate = Raise (KeyError "n_cases") ∧
  analyze_risk_factors_by_era sqrt_floor sample_no_cases
    = Raise (KeyError "n_cases").
Proof. repeat split; by vm_compute. Qed.

(** On a non-empty set of valid records with finite outcomes the case
    count is returned: the truncated sum of the outcomes. *)
Lemma estimator_case_count sqrtQ df outcome weight o w :
  df_num df !! outcome = Some o → df_num df !! weight = Some w →
  dropna2 o w ≠ [] → Forall finite_outcome (dropna2 o w) →
  ∃ r c, calculate_survey_weighted_prevalence sqrtQ df outcome weight = Ok r ∧
    n_cases r = Some c ∧ py_int (F.sum (fst <$> dropna2 o w)) = Ok c.
Proof.
  intros Ho Hw Hne Hfin.
  destruct (py_int_finite_outcomes _ Hfin) as [c Hc].
  destruct (estimator_nonempty sqrtQ df outcome weight o w c Ho Hw Hne Hc)
    as (r & Hr & _ & _ & _ & _ & _ & Hcases).
  by exists r, c.
Qed.

(** ** Bounds on the estimate *)



Lemma F_add_Fin a b : F.add (Fin a) (Fin b) = Fin (a + b).
Proof. reflexivity. Qed.



Lemma F_div_pos a b : 0 < b → F.div (Fin a) (Fin b) = Fin (a / b).
Proof.
  intros Hb. unfold F.div.
  by rewrite (proj1 (Qgt_alt b 0) Hb).
Qed.

Lemma of_nat_pos k : (0 < k)%nat → 0 < inject_Z (Z.of_nat k).
Proof.
  intros Hk. change 0 with (inject_Z 0). rewrite <- Zlt_Qlt. lia.
Qed.







(** ** Minimum sample sizes in the analyzers *)

Lemma mapM_Ok {A B} (f : A → result B) (l : list A) (rs : list B) :
  mapM f l = Ok rs → Forall2 (λ x r, f x = Ok r) l rs.
Proof.
  revert rs. induction l as [|x l IH]; intros rs; simpl.
  - intros [= <-]. constructor.
  - destruct (f x) as [r|] eqn:E; simpl; [|done].
    destruct (mapM f l) as [rs'|]; simpl; [|done].
    intros [= <-]. constructor; [done | by apply IH].
Qed.

Lemma bind_Ok_inv {A B} (m : result A) (f : A → result B) b :
  m ≫= f = Ok b → ∃ a, m = Ok a ∧ f a = Ok b.
Proof. destruct m as [a|e]; simpl; [eauto | done]. Qed.

Lemma age_prev_loop_cons sqrtQ era_df groups k keys acc :
  age_prev_loop sqrtQ era_df groups (k :: keys) acc =
  if (30 <? bucket_size era_df groups k)%nat then
    calculate_survey_weighted_prevalence sqrtQ
      (df_filter era_df (group_eq groups k)) "chd_composite" "WTMEC2YR"
    ≫= λ ag_prev,
         age_prev_loop sqrtQ era_df groups keys
           (<[k := prevalence ag_prev]> acc)
  else age_prev_loop sqrtQ era_df groups keys acc.
Proof. reflexivity. Qed.

Lemma age_prev_loop_dom sqrtQ era_df groups keys acc m :
  age_prev_loop sqrtQ era_df groups keys acc = Ok m →
  ∀ ag, is_Some (m !! ag) ↔
        is_Some (acc !! ag) ∨
        (ag ∈ keys ∧ (30 < bucket_size era_df groups ag)%nat).
Proof.
  revert acc. induction keys as [|k keys IH]; intros acc.
  - intros [= <-] ag. rewrite elem_of_nil. tauto.
  - rewrite age_prev_loop_cons.
    destruct (30 <? bucket_size era_df groups k)%nat eqn:E.
    + intros (p & _ & Hm)%bind_Ok_inv ag.
      rewrite (IH _ Hm ag), lookup_insert_is_Some, elem_of_cons.
      apply Nat.ltb_lt in E.
      destruct (decide (k = ag)) as [->|Hne]; [tauto|].
      split; [intros [[?|[_ ?]]|[? ?]] | intros [?|[[?|?] ?]]];
        try tauto; congruence.
    + intros Hm ag. rewrite (IH _ Hm ag), elem_of_cons.
      apply Nat.ltb_ge in E.
      split; [tauto|]. intros [?|[[->|?] ?]]; [tauto | lia | tauto].
Qed.

Lemma era_age_prev_dom sqrtQ era_df age_prev :
  era_age_prev sqrtQ era_df = Ok age_prev →
  ∃ age, df_num era_df !! "RIDAGEYR" = Some age ∧
    ∀ ag, is_Some (age_prev !! ag) ↔
          ag ∈ US_STD_2000.*1 ∧
          (30 < bucket_size era_df (create_age_groups age) ag)%nat.
Proof.
  unfold era_age_prev. intros (age & E & Hm)%bind_Ok_inv.
  exists age. split; [by apply df_col_Ok|].
  intros ag. rewrite (age_prev_loop_dom _ _ _ _ _ _ Hm ag), lookup_empty.
  split; [intros [[? [=]]|?]; done | auto].
Qed.

Lemma subgroup_loop_cons sqrtQ era era_df var value label labels :
  subgroup_loop sqrtQ era era_df var ((value, label) :: labels) =
  df_col era_df var ≫= λ col,
    if (50 <? cell_size era_df col value)%nat then
      calculate_survey_weighted_prevalence sqrtQ
        (df_filter era_df (series_eq col (Fin value)))
        "chd_composite" "WTMEC2YR"
      ≫= λ prev,
           get_n_cases prev ≫= λ n_chd,
             subgroup_loop sqrtQ era era_df var labels ≫= λ rest,
               Ok ({| sg_era := era; sg_subgroup := label;
                      sg_n_total := cell_size era_df col value;
                      sg_n_chd := n_chd;
                      sg_prevalence := prevalence prev;
                      sg_ci_low := ci_low prev;
                      sg_ci_high := ci_high prev |} :: rest)
    else subgroup_loop sqrtQ era era_df var labels.
Proof. reflexivity. Qed.

Lemma subgroup_loop_rows sqrtQ era era_df var labels col rows :
  df_num era_df !! var = Some col →
  subgroup_loop sqrtQ era era_df var labels = Ok rows →
  sg_subgroup <$> rows =
    snd <$> List.filter (λ vl, (50 <? cell_size era_df col vl.1)%nat) labels ∧
  Forall (λ r, sg_era r = era ∧ (50 < sg_n_total r)%nat) rows.
Proof.
  intros Hcol. revert rows.
  induction labels as [|[value label] labels IH]; intros rows.
  - intros [= <-]. by split.
  - rewrite subgroup_loop_cons, (df_col_lookup _ _ _ Hcol).
    cbn [mbind result_bind List.filter fst].
    destruct (50 <? cell_size era_df col value)%nat eqn:E.
    + intros (prev & _ & H)%bind_Ok_inv.
      apply bind_Ok_inv in H as (cases & _ & H).
      apply bind_Ok_inv in H as (rest & Hrest & H).
      injection H as <-. destruct (IH rest Hrest) as [IH1 IH2].
      split; [by rewrite !fmap_cons, IH1|].
      constructor; [|done]. simpl. split; [done|]. by apply Nat.ltb_lt.
    + apply IH.
Qed.

(** *** The analyzers return on frames that passed the exclusions *)

Lemma length_select {A} (mask : list bool) (s : list A) :
  length s = length mask →
  length (select mask s) = length (List.filter id mask).
Proof.
  unfold select. revert mask.
  induction s as [|x s IH]; intros [|b mask]; simpl; try done.
  intros [= Hlen]. destruct b; simpl; by rewrite IH.
Qed.

Lemma Forall_select {A} (P : A → Prop) (mask : list bool) (s : list A) :
  Forall P s → Forall P (select mask s).
Proof.
  unfold select. intros H. revert mask.
  induction H as [|x s Hx _ IH]; intros [|b mask]; simpl; try done.
  destruct b; simpl; [constructor|]; auto.
Qed.

Lemma df_filter_lookup df mask c :
  df_num (df_filter df mask) !! c = select mask <$> df_num df !! c.
Proof. unfold df_filter. cbn [df_num]. apply lookup_fmap. Qed.

Lemma df_filter_wf df mask :
  df_wf df → length mask = df_len df → df_wf (df_filter df mask).
Proof.
  intros [Hn Hs] Hlen. split; intros c s' Hl.
  - rewrite df_filter_lookup in Hl. apply fmap_Some in Hl as (s & E & ->).
    apply length_select. rewrite Hlen. by apply (Hn c).
  - unfold df_filter in Hl. cbn [df_str] in Hl. rewrite lookup_fmap in Hl.
    apply fmap_Some in Hl as (s & E & ->).
    apply length_select. rewrite Hlen. by apply (Hs c).
Qed.

Lemma df_filter_ready df mask :
  analysis_ready df → analysis_ready (df_filter df mask).
Proof.
  intros (chd & w & Hc & Hw & Fc & Fw).
  exists (select mask chd), (select mask w).
  rewrite !df_filter_lookup, Hc, Hw.
  repeat split; by apply Forall_select.
Qed.

Lemma dropna2_all (o w : Series) :
  Forall (λ x, ∃ q, x = Fin q) o → Forall (λ x, x ≠ NaN) w →
  dropna2 o w = zip o w.
Proof.
  unfold dropna2. intros Ho. revert w.
  induction Ho as [|x o [q ->] _ IH]; intros [|y w] Hw; simpl; try done.
  apply Forall_cons_1 in Hw as [Hy Hw]. rewrite (IH _ Hw).
  by destruct y.
Qed.

Lemma ready_estimator sqrtQ df :
  df_wf df → analysis_ready df → (0 < df_len df)%nat →
  ∃ r c,
    calculate_survey_weighted_prevalence sqrtQ df
      "chd_composite" "WTMEC2YR" = Ok r ∧
    get_n_cases r = Ok c.
Proof.
  intros [Hwf _] (chd & w & Hc & Hw & Fc & Fw) Hpos.
  pose proof (Hwf _ _ Hc) as Lc. pose proof (Hwf _ _ Hw) as Lw.
  simpl in Lc, Lw.
  assert (Hne : dropna2 chd w ≠ []).
  { rewrite (dropna2_all _ _ Fc Fw).
    destruct chd, w; simpl in *; try done; lia. }
  assert (Hfin : Forall finite_outcome (dropna2 chd w)).
  { rewrite (dropna2_all _ _ Fc Fw). apply Forall_forall.
    intros [x y] Hin. apply elem_of_zip_l in Hin.
    exact (proj1 (Forall_forall _ _) Fc x Hin). }
  destruct (estimator_case_count sqrtQ df _ _ chd w Hc Hw Hne Hfin)
    as (r & c & Hr & Hcases & _).
  exists r, c. split; [done|]. unfold get_n_cases. by rewrite Hcases.
Qed.

Lemma ready_estimator_any sqrtQ df :
  analysis_ready df →
  ∃ r, calculate_survey_weighted_prevalence sqrtQ df
         "chd_composite" "WTMEC2YR" = Ok r.
Proof.
  intros (chd & w & Hc & Hw & Fc & Fw).
  destruct (dropna2 chd w) as [|p l] eqn:E.
  - exists empty_estimate. by apply (estimator_empty _ _ _ _ chd w).
  - assert (Hfin : Forall finite_outcome (dropna2 chd w)).
    { rewrite (dropna2_all _ _ Fc Fw). apply Forall_forall.
      intros [x y] Hin. apply elem_of_zip_l in Hin.
      exact (proj1 (Forall_forall _ _) Fc x Hin). }
    destruct (estimator_case_count sqrtQ df _ _ chd w Hc Hw) as (r & _ & Hr & _);
      [by rewrite E | done | by exists r].
Qed.

Lemma mapM_total {A B} (f : A → result B) (l : list A) :
  Forall (λ x, ∃ r, f x = Ok r) l → ∃ rs, mapM f l = Ok rs.
Proof.
  induction 1 as [|x l [r Hr] _ [rs IH]]; simpl.
  - by eexists.
  - rewrite Hr. simpl. rewrite IH. simpl. by eexists.
Qed.

Lemma subgroup_loop_total sqrtQ era era_df var labels col :
  df_wf era_df → analysis_ready era_df →
  df_num era_df !! var = Some col →
  ∃ rows, subgroup_loop sqrtQ era era_df var labels = Ok rows.
Proof.
  intros Hwf Hready Hcol.
  induction labels as [|[value label] labels [rest IH]]; [by eexists|].
  rewrite subgroup_loop_cons, (df_col_lookup _ _ _ Hcol).
  cbn [mbind result_bind].
  unfold cell_size.
  destruct (50 <? df_len _)%nat eqn:E; [|by exists rest].
  apply Nat.ltb_lt in E.
  destruct (ready_estimator sqrtQ
              (df_filter era_df (series_eq col (Fin value))))
    as (r & c & Hr & Hc).
  - apply df_filter_wf; [done|]. unfold series_eq. rewrite length_fmap.
    by apply (proj1 Hwf var).
  - by apply df_filter_ready.
  - lia.
  - rewrite Hr. cbn [mbind result_bind]. rewrite Hc. cbn [mbind result_bind].
    rewrite IH. cbn [mbind result_bind]. by eexists.
Qed.

Lemma age_prev_loop_total sqrtQ era_df groups keys acc :
  analysis_ready era_df →
  ∃ m, age_prev_loop sqrtQ era_df groups keys acc = Ok m.
Proof.
  intros Hready. revert acc.
  induction keys as [|k keys IH]; intros acc; [by eexists|].
  rewrite age_prev_loop_cons.
  destruct (30 <? bucket_size era_df groups k)%nat; [|apply IH].
  destruct (ready_estimator_any sqrtQ (df_filter era_df (group_eq groups k)))
    as [r Hr]; [by apply df_filter_ready|].
  rewrite Hr. cbn [mbind result_bind]. apply IH.
Qed.

Lemma str_eq_count (eras : list string) era :
  era ∈ eras → (0 < length (List.filter id (str_eq eras era)))%nat.
Proof.
  unfold str_eq. induction eras as [|e eras IH]; [by intros ?%elem_of_nil|].
  intros [->|Hin]%elem_of_cons; simpl.
  - rewrite bool_decide_eq_true_2 by done. simpl. lia.
  - destruct (bool_decide (e = era)); simpl; [lia | by apply IH].
Qed.

Lemma sorted_unique_elem (eras : list string) era :
  era ∈ sorted_unique eras ↔ era ∈ eras.
Proof.
  unfold sorted_unique.
  by rewrite merge_sort_Permutation, elem_of_remove_dups.
Qed.

Lemma analyzers_total sqrtQ df eras :
  df_wf df → analysis_ready df → df_str df !! "era" = Some eras →
  (is_Some (df_num df !! "RIDAGEYR") →
   ∃ rows, analyze_prevalence_by_era sqrtQ df = Ok rows) ∧
  (∀ var labels, is_Some (df_num df !! var) →
   ∃ rows, analyze_by_subgroup sqrtQ df var labels = Ok rows).
Proof.
  intros Hwf Hready Heras.
  assert (Hmask : ∀ era, length (str_eq eras era) = df_len df).
  { intros era. unfold str_eq. rewrite length_fmap.
    by apply (proj2 Hwf "era"). }
  split.
  - intros [age Hage]. unfold analyze_prevalence_by_era, df_scol.
    rewrite Heras. cbn [mbind result_bind].
    apply mapM_total, Forall_forall. intros era Hin.
    apply (proj1 (sorted_unique_elem eras era)) in Hin.
    unfold analyze_era. cbv zeta.
    destruct (ready_estimator sqrtQ (df_filter df (str_eq eras era)))
      as (r & c & Hr & Hc).
    { by apply df_filter_wf. }
    { by apply df_filter_ready. }
    { exact (str_eq_count eras era Hin). }
    rewrite Hr. cbn [mbind result_bind].
    unfold era_age_prev, df_col. rewrite df_filter_lookup, Hage.
    cbn [fmap option_fmap option_map mbind result_bind].
    destruct (age_prev_loop_total sqrtQ (df_filter df (str_eq eras era))
                (create_age_groups (select (str_eq eras era) age))
                (US_STD_2000.*1) ∅) as [m Hm]; [by apply df_filter_ready|].
    rewrite Hm. cbn [mbind result_bind]. rewrite Hc.
    cbn [mbind result_bind]. by eexists.
  - intros var labels [col Hcol]. unfold analyze_by_subgroup, df_scol.
    rewrite Heras. cbn [mbind result_bind].
    destruct (mapM_total
                (λ era, subgroup_loop sqrtQ era
                          (df_filter df (str_eq eras era)) var labels)
                (sorted_unique eras)) as [rs Hrs].
    { apply Forall_forall. intros era _.
      apply (subgroup_loop_total _ _ _ _ _ (select (str_eq eras era) col)).
      - by apply df_filter_wf.
      - by apply df_filter_ready.
      - by rewrite df_filter_lookup, Hcol. }
    rewrite Hrs. cbn [mbind result_bind]. by eexists.
Qed.

(** C7, as the code has it. In the analyzers the minimum sample sizes
    are exclusive: within an era an age bucket enters the
    age-standardization exactly when it holds more than 30 records, and
    a subgroup cell is reported exactly when it holds more than 50
    records; other buckets and cells are left out, not zero-filled. The
    records counted are the rows of the slice. Both analyzers return on
    every well-formed frame whose outcome column is finite and whose
    weight column has no missing value. *)
Theorem analyzer_minimum_sample_sizes sqrtQ df eras :
  df_str df !! "era" = Some eras →
  (∀ era row,
     analyze_era sqrtQ df eras era = Ok row →
     ∃ age age_prev,
       df_num (df_filter df (str_eq eras era)) !! "RIDAGEYR" = Some age ∧
       era_age_prev sqrtQ (df_filter df (str_eq eras era)) = Ok age_prev ∧
       (∀ ag, is_Some (age_prev !! ag) ↔
              ag ∈ US_STD_2000.*1 ∧
              (30 < bucket_size (df_filter df (str_eq eras era))
                      (create_age_groups age) ag)%nat) ∧
       er_age_std_prevalence row =
         if decide (age_prev = ∅) then NaN else age_standardize age_prev) ∧
  (∀ rows, analyze_prevalence_by_era sqrtQ df = Ok rows →
     Forall2 (λ era row, analyze_era sqrtQ df eras era = Ok row)
       (sorted_unique eras) rows) ∧
  (∀ var labels rows col,
     analyze_by_subgroup sqrtQ df var labels = Ok rows →
     df_num df !! var = Some col →
     ∃ per_era,
       rows = concat per_era ∧
       Forall2
         (λ era rs,
            sg_subgroup <$> rs =
              snd <$> List.filter
                (λ vl, (50 <? cell_size (df_filter df (str_eq eras era))
                                (select (str_eq eras era) col) vl.1)%nat)
                labels ∧
            Forall (λ r, sg_era r = era ∧ (50 < sg_n_total r)%nat) rs)
         (sorted_unique eras) per_era) ∧
  (df_wf df → analysis_ready df →
   (is_Some (df_num df !! "RIDAGEYR") →
    ∃ rows, analyze_prevalence_by_era sqrtQ df = Ok rows) ∧
   (∀ var labels, is_Some (df_num df !! var) →
    ∃ rows, analyze_by_subgroup sqrtQ df var labels = Ok rows)).
Proof.
  intros Heras. split; [|split; [|split]];
    [| | |intros Hwf Hready; exact (analyzers_total sqrtQ df eras Hwf Hready Heras)].
  - intros era row Hrow.
    destruct (analyze_era_age_std _ _ _ _ _ Hrow) as (age_prev & Hap & Hstd).
    destruct (era_age_prev_dom _ _ _ Hap) as (age & Hage & Hdom).
    by exists age, age_prev.
  - intros rows. unfold analyze_prevalence_by_era, df_scol.
    rewrite Heras. simpl. apply mapM_Ok.
  - intros var labels rows col. unfold analyze_by_subgroup, df_scol.
    rewrite Heras. cbn [mbind result_bind].
    intros (per_era & E & H)%bind_Ok_inv Hcol. injection H as <-.
    exists per_era. split; [done|].
    apply mapM_Ok in E. eapply Forall2_impl; [exact E|].
    intros era rs Hrs. cbv beta in Hrs.
    refine (subgroup_loop_rows sqrtQ era _ var labels _ rs _ Hrs).
    unfold df_filter. cbn [df_num]. by rewrite lookup_fmap, Hcol.
Qed.

Lemma analyzer_minimum_sample_sizes_witness :
  (∃ row age_prev,
     analyze_era sqrt_floor (cohort 31) (replicate 31 "Era2_1999-2006")
       "Era2_1999-2006" = Ok row ∧
     era_age_prev sqrt_floor
       (df_filter (cohort 31)
          (str_eq (replicate 31 "Era2_1999-2006") "Era2_1999-2006"))
       = Ok age_prev ∧
     is_Some (age_prev !! "20-29") ∧ ¬ is_Some (age_prev !! "30-39")) ∧
  (∃ rows,
     analyze_by_subgroup sqrt_floor (cohort 51) "RIAGENDR" sex_labels
       = Ok rows ∧
     sg_subgroup <$> rows = ["Male"]).
Proof.
  split.
  - destruct (analyzer_minimum_sample_sizes sqrt_floor (cohort 31)
                (replicate 31 "Era2_1999-2006")) as (Hera & _ & _ & _);
      [by vm_compute|].
    destruct (analyze_era sqrt_floor (cohort 31)
                (replicate 31 "Era2_1999-2006") "Era2_1999-2006")
      as [row|e] eqn:E; [|by vm_compute in E].
    destruct (Hera _ _ E) as (age & age_prev & Hage & Hap & Hdom & _).
    exists row, age_prev. split; [done|]. split; [done|].
    vm_compute in Hage. injection Hage as <-.
    split.
    + apply Hdom. split; [apply elem_of_cons; by left|]. vm_compute. lia.
    + intros [_ Hlt]%Hdom. vm_compute in Hlt. lia.
  - destruct (analyzer_minimum_sample_sizes sqrt_floor (cohort 51)
                (replicate 51 "Era2_1999-2006")) as (_ & _ & Hsub & _);
      [by vm_compute|].
    destruct (analyze_by_subgroup sqrt_floor (cohort 51) "RIAGENDR"
                sex_labels) as [rows|e] eqn:E; [|by vm_compute in E].
    exists rows. split; [done|].
    destruct (Hsub "RIAGENDR" sex_labels rows (replicate 51 (Fin 1)) E)
      as (per_era & -> & Hper); [by vm_compute|].
    assert (Hs : sorted_unique (replicate 51 "Era2_1999-2006")
                 = ["Era2_1999-2006"]) by (by vm_compute).
    rewrite Hs in Hper.
    apply Forall2_cons_inv_l in Hper as (rs & rest & [Hrs _] & Hnil & ->).
    apply Forall2_nil_inv_l in Hnil as ->.
    simpl. rewrite app_nil_r, Hrs. by vm_compute.
Defined.

(** C7 as stated fails: a bucket of exactly 30 records does not enter
    the age-standardization, and a cell of exactly 50 records is not
    reported, although the specification's thresholds admit both. *)
Lemma minimum_sample_sizes_counterexample :
  bucket_size (cohort 30) (create_age_groups (replicate 30 (Fin 25)))
    "20-29" = 30%nat ∧
  spec_bucket_contributes 30 = true ∧
  era_age_prev sqrt_floor (cohort 30) = Ok ∅ ∧
  cell_size (cohort 50) (replicate 50 (Fin 1)) 1 = 50%nat ∧
  spec_cell_reported 50 = true ∧
  analyze_by_subgroup sqrt_floor (cohort 50) "RIAGENDR" sex_labels = Ok [].
Proof. repeat split; by vm_compute. Qed.


(** * Further properties of the code *)

(** ** How the estimator fails and what it always returns *)

Lemma estimator_raise sqrtQ df outcome weight o w e :
  df_num df !! outcome = Some o → df_num df !! weight = Some w →
  dropna2 o w ≠ [] →
  py_int (F.sum (fst <$> dropna2 o w)) = Raise e →
  calculate_survey_weighted_prevalence sqrtQ df outcome weight = Raise e.
Proof.
  intros Ho Hw Hv Hc. unfold calculate_survey_weighted_prevalence.
  rewrite (df_col_lookup _ _ _ Ho). simpl.
  rewrite (df_col_lookup _ _ _ Hw). simpl.
  destruct (dropna2 o w) as [|p valid] eqn:E; [done|].
  cbn [length Nat.eqb]. cbv zeta. by rewrite Hc.
Qed.




Lemma estimator_Ok_inv sqrtQ df outcome weight r :
  calculate_survey_weighted_prevalence sqrtQ df outcome weight = Ok r →
  ∃ o w, df_num df !! outcome = Some o ∧ df_num df !! weight = Some w ∧
    ((dropna2 o w = [] ∧ r = empty_estimate) ∨
     (dropna2 o w ≠ [] ∧
      n r = length (dropna2 o w) ∧
      prevalence r =
        F.div (F.sum ((λ p, F.mul p.1 p.2) <$> dropna2 o w))
              (F.sum (snd <$> dropna2 o w)) ∧
      se r =
        np_sqrt sqrtQ
          (F.div (F.mul (prevalence r) (F.sub (Fin 1) (prevalence r)))
                 (of_nat (n r))) ∧
      ci_low r =
        F.py_max (Fin 0)
          (F.sub (prevalence r) (F.mul (Fin (196 # 100)) (se r))) ∧
      ci_high r =
        F.py_min (Fin 1)
          (F.add (prevalence r) (F.mul (Fin (196 # 100)) (se r))) ∧
      ∃ c, py_int (F.sum (fst <$> dropna2 o w)) = Ok c ∧
           n_cases r = Some c)).
Proof.
  intros Hok.
  pose proof Hok as H. unfold calculate_survey_weighted_prevalence in H.
  apply bind_Ok_inv in H as (o & Ho%df_col_Ok & H).
  apply bind_Ok_inv in H as (w & Hw%df_col_Ok & _).
  exists o, w. split; [done|]. split; [done|].
  destruct (decide (dropna2 o w = [])) as [Hv|Hv].
  { left. split; [done|].
    rewrite (estimator_empty sqrtQ df outcome weight o w Ho Hw Hv) in Hok.
    by injection Hok. }
  right. split; [done|].
  destruct (py_int (F.sum (fst <$> dropna2 o w))) as [c|e'] eqn:Hc.
  - destruct (estimator_nonempty sqrtQ df outcome weight o w c Ho Hw Hv Hc)
      as (r' & Hr & Hn & Hp & Hse & Hlo & Hhi & Hcases).
    assert (r = r') as -> by congruence.
    repeat (split; [done|]). by exists c.
  - by rewrite (estimator_raise sqrtQ df outcome weight o w e' Ho Hw Hv Hc)
      in Hok.
Qed.

Lemma py_max_0_ge x : F.leb (Fin 0) (F.py_max (Fin 0) x) = true.
Proof.
  unfold F.py_max, F.gtb. destruct x as [q| | |]; simpl; try done.
  destruct (0 ?= q) eqn:E; simpl; try done.
  apply Qle_bool_iff. apply Qlt_alt in E. lra.
Qed.

Lemma py_min_1_le x : F.leb (F.py_min (Fin 1) x) (Fin 1) = true.
Proof.
  unfold F.py_min. destruct x as [q| | |]; simpl; try done.
  destruct (q ?= 1) eqn:E; simpl; try done.
  apply Qle_bool_iff. apply Qlt_alt in E. lra.
Qed.

(** Whatever the data, a result for a non-empty valid set has a lower
    confidence bound that is a number not below 0 and an upper bound that
    is a number not above 1: the clipping also absorbs a NaN prevalence
    or standard error. A result with [n = 0] is the all-NaN result. *)
Theorem estimator_interval_clipped sqrtQ df outcome weight r :
  calculate_survey_weighted_prevalence sqrtQ df outcome weight = Ok r →
  (n r = 0%nat ∧ r = empty_estimate) ∨
  ((0 < n r)%nat ∧ F.leb (Fin 0) (ci_low r) = true ∧
   F.leb (ci_high r) (Fin 1) = true).
Proof.
  intros (o & w & _ & _ & [[_ ->]|(Hv & Hn & _ & _ & Hlo & Hhi & _)])
    %estimator_Ok_inv.
  - by left.
  - right. split.
    + rewrite Hn. destruct (dropna2 o w); simpl; [done | lia].
    + rewrite Hlo, Hhi. split; [apply py_max_0_ge | apply py_min_1_le].
Qed.

Lemma estimator_interval_clipped_witness :
  ∃ r, calculate_survey_weighted_prevalence sqrt_floor sample_all_zero_weight
         "chd_composite" "WTMEC2YR" = Ok r ∧
       F.leb (Fin 0) (ci_low r) = true ∧ F.leb (ci_high r) (Fin 1) = true.
Proof.
  destruct (calculate_survey_weighted_prevalence sqrt_floor
              sample_all_zero_weight "chd_composite" "WTMEC2YR")
    as [r|e] eqn:E; [|by vm_compute in E].
  exists r. split; [done|].
  destruct (estimator_interval_clipped _ _ _ _ _ E) as [[Hn Hr]|(_ & H)];
    [|done].
  subst r. by vm_compute in E.
Defined.

(** ** Zero total weight *)






(** ** The unweighted case count *)

Lemma binary_outcome_sum (valid : list (fval * fval)) a :
  Forall (λ p, ∃ o, p.1 = Fin o ∧ (o == 0 ∨ o == 1)) valid →
  ∃ s, foldl F.add (Fin a) (fst <$> valid) = Fin s ∧
       s == a + inject_Z (Z.of_nat (count_cases valid)).
Proof.
  intros H. revert a. unfold count_cases.
  induction H as [|[x y] valid (o & Hx & Ho) _ IH]; intros a; simpl in *.
  - exists a. split; [done|]. simpl. ring.
  - subst x. simpl. destruct (IH (a + o)) as (s & Hs & Es).
    exists s. split; [done|]. rewrite Es.
    destruct Ho as [Ho|Ho].
    + assert (Qeq_bool o 1 = false) as ->.
      { apply not_true_is_false. intros H1%Qeq_bool_iff. lra. }
      rewrite Ho. ring.
    + rewrite (proj2 (Qeq_bool_iff o 1) Ho). simpl length.
      rewrite Nat2Z.inj_succ, <- Z.add_1_l, inject_Z_plus, Ho. ring.
Qed.

Lemma py_int_integer s z :
  s == inject_Z z → py_int (Fin s) = Ok z.
Proof.
  unfold Qeq. simpl. rewrite Z.mul_1_r. intros ->.
  by rewrite Z.quot_mul.
Qed.




(** ** Age groups *)

Lemma Qle_bool_true a b : a <= b → Qle_bool a b = true.
Proof. apply Qle_bool_iff. Qed.

Lemma Qle_bool_false a b : b < a → Qle_bool a b = false.
Proof. intros H. apply not_true_is_false. intros H'%Qle_bool_iff. lra. Qed.

Lemma Qlt_bool_true a b : a < b → Qlt_bool a b = true.
Proof. apply Qlt_bool_iff. Qed.

Lemma Qlt_bool_false a b : b <= a → Qlt_bool a b = false.
Proof. intros H. apply not_true_is_false. intros H'%Qlt_bool_iff. lra. Qed.

(** Decide every bin test on [q] from the bounds in the context. *)
Ltac bin_tests q :=
  repeat match goal with
    | |- context [Qle_bool ?a q] =>
        first [rewrite (Qle_bool_true a q) by lra
              | rewrite (Qle_bool_false a q) by lra]
    | |- context [Qlt_bool q ?b] =>
        first [rewrite (Qlt_bool_true q b) by lra
              | rewrite (Qlt_bool_false q b) by lra]
    end.

Lemma cut_label_cases q :
  (q < 20 ∧ cut_label (Fin q) = None) ∨
  (20 <= q ∧ q < 30 ∧ cut_label (Fin q) = Some "20-29") ∨
  (30 <= q ∧ q < 40 ∧ cut_label (Fin q) = Some "30-39") ∨
  (40 <= q ∧ q < 50 ∧ cut_label (Fin q) = Some "40-49") ∨
  (50 <= q ∧ q < 60 ∧ cut_label (Fin q) = Some "50-59") ∨
  (60 <= q ∧ q < 70 ∧ cut_label (Fin q) = Some "60-69") ∨
  (70 <= q ∧ q < 80 ∧ cut_label (Fin q) = Some "70-79") ∨
  (80 <= q ∧ q < 120 ∧ cut_label (Fin q) = Some "80+") ∨
  (120 <= q ∧ cut_label (Fin q) = None).
Proof.
  unfold cut_label, age_bins. cbn -[Qle_bool Qlt_bool].
  destruct (Qlt_le_dec q 20); [left; split; [done|]; by bin_tests q|right].
  destruct (Qlt_le_dec q 30);
    [left; repeat (split; [done|]); by bin_tests q|right].
  destruct (Qlt_le_dec q 40);
    [left; repeat (split; [done|]); by bin_tests q|right].
  destruct (Qlt_le_dec q 50);
    [left; repeat (split; [done|]); by bin_tests q|right].
  destruct (Qlt_le_dec q 60);
    [left; repeat (split; [done|]); by bin_tests q|right].
  destruct (Qlt_le_dec q 70);
    [left; repeat (split; [done|]); by bin_tests q|right].
  destruct (Qlt_le_dec q 80);
    [left; repeat (split; [done|]); by bin_tests q|right].
  destruct (Qlt_le_dec q 120);
    [left; repeat (split; [done|]); by bin_tests q|right].
  split; [done|]. by bin_tests q.
Qed.

(** [create_age_groups] labels an age with the ten-year bucket that
    holds it, lower bound included and upper bound excluded, so that 30
    falls in 30-39 and 80 in 80+; an age below 20, an age of 120 or
    more and a missing age get no label. Every label is a key of the
    reference table. *)
Theorem create_age_groups_buckets (age : Series) i x :
  age !! i = Some x →
  ∃ g, create_age_groups age !! i = Some g ∧
    (∀ q, x = Fin q →
       (g = Some "20-29" ↔ 20 <= q ∧ q < 30) ∧
       (g = Some "30-39" ↔ 30 <= q ∧ q < 40) ∧
       (g = Some "40-49" ↔ 40 <= q ∧ q < 50) ∧
       (g = Some "50-59" ↔ 50 <= q ∧ q < 60) ∧
       (g = Some "60-69" ↔ 60 <= q ∧ q < 70) ∧
       (g = Some "70-79" ↔ 70 <= q ∧ q < 80) ∧
       (g = Some "80+" ↔ 80 <= q ∧ q < 120) ∧
       (g = None ↔ q < 20 ∨ 120 <= q)) ∧
    ((∀ q, x ≠ Fin q) → g = None) ∧
    (∀ l, g = Some l → l ∈ US_STD_2000.*1).
Proof.
  intros Hx. exists (cut_label x).
  split; [unfold create_age_groups; by rewrite list_lookup_fmap, Hx|].
  split; [|split].
  - intros q ->.
    destruct (cut_label_cases q)
      as [[? ->]|[(?&?& ->)|[(?&?& ->)|[(?&?& ->)|[(?&?& ->)|[(?&?& ->)|
          [(?&?& ->)|[(?&?& ->)|[? ->]]]]]]]]];
      repeat split; intros; try discriminate; try done; try lra;
      try (match goal with H : _ ∧ _ |- _ => destruct H end; lra);
      try (match goal with H : _ ∨ _ |- _ => destruct H end; lra).
  - intros Hnot. destruct x as [q| | |]; try done. by destruct (Hnot q).
  - intros l Hl. destruct x as [q| | |]; try done.
    destruct (cut_label_cases q)
      as [[? E]|[(?&?& E)|[(?&?& E)|[(?&?& E)|[(?&?& E)|[(?&?& E)|
          [(?&?& E)|[(?&?& E)|[? E]]]]]]]]];
      rewrite E in Hl; try discriminate; injection Hl as <-;
      apply list_elem_of_In; simpl; tauto.
Qed.

Lemma create_age_groups_buckets_witness :
  create_age_groups [Fin 19; Fin 30; Fin 80; Fin 120; NaN] !! 1%nat
    = Some (Some "30-39") ∧
  create_age_groups [Fin 19; Fin 30; Fin 80; Fin 120; NaN] !! 3%nat
    = Some None.
Proof.
  split.
  - destruct (create_age_groups_buckets
                [Fin 19; Fin 30; Fin 80; Fin 120; NaN] 1 (Fin 30) eq_refl)
      as (g & Hg & Hq & _).
    rewrite Hg. f_equal. apply (Hq 30 eq_refl). lra.
  - destruct (create_age_groups_buckets
                [Fin 19; Fin 30; Fin 80; Fin 120; NaN] 3 (Fin 120) eq_refl)
      as (g & Hg & Hq & _).
    rewrite Hg. f_equal. apply (Hq 120 eq_refl). lra.
Defined.

(** ** More on age standardization *)

Lemma present_buckets_elem m e :
  e ∈ present_buckets m ↔ e ∈ US_STD_2000 ∧ is_Some (m !! e.1).
Proof.
  unfold present_buckets. rewrite !list_elem_of_In, filter_In.
  by rewrite bool_decide_eq_true.
Qed.

Lemma standardize_fold_bounds (m : gmap string fval) lo hi
    (l : list (string * Q)) s0 t0 :
  Forall (λ e, 0 < e.2 ∧
               ∃ q, m !! e.1 = Some (Fin q) ∧ lo <= q ∧ q <= hi) l →
  lo * t0 <= s0 → s0 <= hi * t0 →
  ∃ s, foldl F.add (Fin s0)
         ((λ e, F.mul (default NaN (m !! e.1)) (Fin e.2)) <$> l) = Fin s ∧
       lo * foldl Qplus t0 (l.*2) <= s ∧ s <= hi * foldl Qplus t0 (l.*2).
Proof.
  intros H. revert s0 t0.
  induction H as [|e l (Hw & q & Hq & Hlo & Hhi) _ IH]; intros s0 t0 H1 H2.
  - exists s0. by repeat split.
  - rewrite !fmap_cons. cbn [foldl]. rewrite Hq. cbn [default F.mul F.add].
    apply IH; nra.
Qed.

(** A standardized rate is a rate: when the input holds at least one
    reference bucket and every reference bucket that it holds has a
    prevalence between 0 and 1, the result is a number between 0 and
    1. *)
Theorem age_standardize_within_range (m : gmap string fval) :
  present_buckets m ≠ [] →
  (∀ b p, b ∈ US_STD_2000.*1 → m !! b = Some p →
     ∃ q, p = Fin q ∧ 0 <= q ∧ q <= 1) →
  ∃ r, age_standardize m = Fin r ∧ 0 <= r ∧ r <= 1.
Proof.
  intros Hne Hrange.
  pose proof (weight_part_pos m Hne) as Hpos.
  pose proof (weight_part_lt_1 m) as Hlt.
  rewrite age_standardize_eq.
  rewrite (proj2 (Qlt_bool_iff _ _) Hpos), (proj2 (Qlt_bool_iff _ _) Hlt).
  cbn [andb].
  destruct (standardize_fold_bounds m 0 1 (present_buckets m) 0 0)
    as (s & Hs & Hlo & Hhi); [|lra|lra|].
  { apply Forall_forall. intros e [He [p Hp]]%present_buckets_elem. split.
    - exact (proj1 (Forall_forall _ _) US_STD_2000_positive e He).
    - destruct (Hrange e.1 p) as (q & -> & ?); [|done|by exists q].
      apply list_elem_of_fmap. by exists e. }
  unfold weighted_part. rewrite Hs.
  fold (weight_part m) in Hlo, Hhi.
  rewrite (F_div_pos _ _ Hpos). eexists. split; [reflexivity|].
  split; [apply Qle_shift_div_l | apply Qle_shift_div_r]; done.
Qed.

Lemma age_standardize_within_range_witness :
  ∃ r, age_standardize {[ "20-29" := Fin (5 # 100);
                          "80+" := Fin (20 # 100) ]} = Fin r ∧
       0 <= r ∧ r <= 1.
Proof.
  apply age_standardize_within_range.
  - by vm_compute.
  - intros b p _ Hp.
    apply lookup_insert_Some in Hp as [[_ <-]|[_ Hp]].
    { eexists. split; [reflexivity|]. by vm_compute. }
    apply lookup_singleton_Some in Hp as [_ <-].
    eexists. split; [reflexivity|]. by vm_compute.
Defined.

Lemma age_standardize_ext (m m' : gmap string fval) :
  (∀ b, b ∈ US_STD_2000.*1 → m !! b = m' !! b) →
  age_standardize m = age_standardize m'.
Proof.
  intros Hext. unfold age_standardize.
  assert (Hfold : ∀ (l : list (string * Q)) acc,
            (∀ e, e ∈ l → m !! e.1 = m' !! e.1) →
            foldl (age_standardize_loop m) acc l
            = foldl (age_standardize_loop m') acc l).
  { induction l as [|e l IH]; intros acc Hl; [done|]. cbn [foldl].
    unfold age_standardize_loop at 2 4.
    rewrite (Hl e) by (by left).
    apply IH. intros e' He'. apply Hl. by right. }
  rewrite Hfold; [done|].
  intros e He. apply Hext, list_elem_of_fmap. by exists e.
Qed.

(** Entries of the input mapping under labels that are not reference
    buckets are ignored: adding, changing or removing one leaves the
    standardized rate unchanged. *)
Theorem age_standardize_ignores_other_labels (m : gmap string fval) b p :
  b ∉ US_STD_2000.*1 →
  age_standardize (<[b := p]> m) = age_standardize m ∧
  age_standardize (delete b m) = age_standardize m.
Proof.
  intros Hb. split; apply age_standardize_ext; intros b' Hb'.
  - apply lookup_insert_ne. by intros ->.
  - apply lookup_delete_ne. by intros ->.
Qed.

Lemma age_standardize_ignores_other_labels_witness :
  age_standardize (<["18-19" := Fin (1 # 2)]> {[ "20-29" := Fin (5 # 100) ]})
  = age_standardize {[ "20-29" := Fin (5 # 100) ]}.
Proof.
  destruct (age_standardize_ignores_other_labels
              {[ "20-29" := Fin (5 # 100) ]} "18-19" (Fin (1 # 2)))
    as [Hins _]; [|exact Hins].
  intros H. apply list_elem_of_In in H. simpl in H.
  by repeat destruct H as [H|H].
Defined.

Lemma foldl_add_nan (l : list fval) : foldl F.add NaN l = NaN.
Proof. induction l as [|x l IH]; [done|]. simpl. by rewrite IH. Qed.

Lemma foldl_add_nan_elem (l : list fval) a :
  NaN ∈ l → foldl F.add a l = NaN.
Proof.
  revert a. induction l as [|x l IH]; intros a; [by intros ?%elem_of_nil|].
  intros [<-|Hin]%elem_of_cons; cbn [foldl].
  - assert (F.add a NaN = NaN) as -> by (by destruct a). apply foldl_add_nan.
  - by apply IH.
Qed.

(** A missing prevalence in one reference bucket makes the whole
    standardized rate missing: the bucket is not skipped. *)
Theorem age_standardize_propagates_missing (m : gmap string fval) b :
  b ∈ US_STD_2000.*1 → m !! b = Some NaN → age_standardize m = NaN.
Proof.
  intros Hb Hm.
  apply list_elem_of_fmap in Hb as (e & -> & He).
  assert (Hw : weighted_part m = NaN).
  { unfold weighted_part. apply foldl_add_nan_elem.
    apply list_elem_of_fmap. exists e. split.
    - by rewrite Hm.
    - apply present_buckets_elem. split; [done|]. by rewrite Hm. }
  rewrite age_standardize_eq, Hw. by destruct (_ && _).
Qed.

Lemma age_standardize_propagates_missing_witness :
  age_standardize {[ "20-29" := Fin (5 # 100); "30-39" := NaN ]} = NaN.
Proof.
  apply (age_standardize_propagates_missing _ "30-39").
  - apply list_elem_of_In. simpl. tauto.
  - by vm_compute.
Defined.

(** ** The per-era table *)

Lemma analyze_era_fields sqrtQ df eras era row :
  analyze_era sqrtQ df eras era = Ok row →
  er_era row = era ∧ er_n_total row = era_count eras era.
Proof.
  unfold analyze_era. cbv zeta.
  intros (prev & _ & H)%bind_Ok_inv.
  apply bind_Ok_inv in H as (age_prev & _ & H).
  apply bind_Ok_inv in H as (cases & _ & H).
  by injection H as <-.
Qed.

Lemma era_count_cons (x : string) eras era :
  era_count (x :: eras) era
  = ((if bool_decide (x = era) then 1 else 0) + era_count eras era)%nat.
Proof. unfold era_count. simpl. by destruct (bool_decide (x = era)). Qed.

Lemma sum_list_fmap_cons {A} (f : A → nat) e (D : list A) :
  sum_list (f <$> e :: D) = (f e + sum_list (f <$> D))%nat.
Proof. reflexivity. Qed.

Lemma sum_list_indicator_zero (x : string) (D : list string) :
  x ∉ D →
  sum_list ((λ e, if bool_decide (x = e) then 1 else 0)%nat <$> D) = 0%nat.
Proof.
  induction D as [|e D IH]; intros Hnot; [done|].
  rewrite sum_list_fmap_cons, bool_decide_eq_false_2, IH; [done| |].
  - intros H. apply Hnot. by right.
  - intros ->. apply Hnot. by left.
Qed.

Lemma sum_list_indicator (x : string) (D : list string) :
  NoDup D → x ∈ D →
  sum_list ((λ e, if bool_decide (x = e) then 1 else 0)%nat <$> D) = 1%nat.
Proof.
  induction 1 as [|e D Hnot Hnd IH]; [by intros ?%elem_of_nil|].
  rewrite sum_list_fmap_cons. intros [->|Hin]%elem_of_cons.
  - by rewrite bool_decide_eq_true_2, sum_list_indicator_zero.
  - rewrite bool_decide_eq_false_2 by (by intros ->). by rewrite IH.
Qed.

Lemma sum_list_plus {A} (f g : A → nat) (D : list A) :
  sum_list ((λ e, f e + g e)%nat <$> D)
  = (sum_list (f <$> D) + sum_list (g <$> D))%nat.
Proof.
  induction D as [|e D IH]; [done|].
  rewrite !sum_list_fmap_cons, IH. lia.
Qed.

Lemma sum_era_counts (eras D : list string) :
  NoDup D → (∀ x, x ∈ eras → x ∈ D) →
  sum_list (era_count eras <$> D) = length eras.
Proof.
  intros Hnd. induction eras as [|x eras IH]; intros Hsub.
  - clear Hsub Hnd. induction D as [|e D IH]; [done|].
    by rewrite sum_list_fmap_cons, IH.
  - assert (era_count (x :: eras) <$> D
            = (λ e, (if bool_decide (x = e) then 1 else 0)
                    + era_count eras e)%nat <$> D) as ->.
    { apply list_fmap_ext. intros i e _. apply era_count_cons. }
    rewrite sum_list_plus, sum_list_indicator, IH; try done.
    + intros y Hy. apply Hsub. by right.
    + apply Hsub. by left.
Qed.

Lemma sorted_unique_NoDup (eras : list string) : NoDup (sorted_unique eras).
Proof.
  unfold sorted_unique. rewrite merge_sort_Permutation.
  apply NoDup_remove_dups.
Qed.

Lemma Forall2_fmap_eq {A B C} (f : A → C) (g : B → C) (l : list A)
    (k : list B) :
  Forall2 (λ x y, g y = f x) l k → g <$> k = f <$> l.
Proof.
  induction 1 as [|x y l k H _ IH]; [done|].
  by rewrite !fmap_cons, H, IH.
Qed.

(** The per-era table has one row for each distinct era of the frame, in
    ascending order of the era label; a row's [n_total] is the number of
    records of its era, which is never 0, and the [n_total] of all rows
    add up to the number of records of the frame. *)
Theorem analyze_prevalence_by_era_rows sqrtQ df eras rows :
  df_str df !! "era" = Some eras →
  analyze_prevalence_by_era sqrtQ df = Ok rows →
  er_era <$> rows = sorted_unique eras ∧
  Sorted String.le (er_era <$> rows) ∧
  NoDup (er_era <$> rows) ∧
  (∀ era, era ∈ er_era <$> rows ↔ era ∈ eras) ∧
  Forall (λ row, er_n_total row = era_count eras (er_era row) ∧
                 (0 < er_n_total row)%nat) rows ∧
  sum_list (er_n_total <$> rows) = length eras.
Proof.
  intros Heras. unfold analyze_prevalence_by_era, df_scol.
  rewrite Heras. cbn [mbind result_bind]. intros Hrows%mapM_Ok.
  assert (Hera : er_era <$> rows = sorted_unique eras).
  { rewrite <- (list_fmap_id (sorted_unique eras)).
    apply Forall2_fmap_eq. eapply Forall2_impl; [exact Hrows|].
    by intros era row [-> _]%analyze_era_fields. }
  assert (Hn : er_n_total <$> rows = era_count eras <$> sorted_unique eras).
  { apply Forall2_fmap_eq. eapply Forall2_impl; [exact Hrows|].
    by intros era row [_ ->]%analyze_era_fields. }
  split; [done|]. rewrite Hera.
  split; [apply Sorted_merge_sort; apply _|].
  split; [apply sorted_unique_NoDup|].
  split; [apply sorted_unique_elem|].
  split.
  - apply Forall_forall. intros row Hrow.
    apply list_elem_of_lookup in Hrow as [i Hi].
    destruct (Forall2_lookup_r _ _ _ _ _ Hrows Hi) as (era & Hei & Hok).
    destruct (analyze_era_fields _ _ _ _ _ Hok) as [-> ->].
    split; [done|]. apply str_eq_count.
    apply sorted_unique_elem. by apply list_elem_of_lookup_2 in Hei.
  - rewrite Hn. apply sum_era_counts; [apply sorted_unique_NoDup|].
    intros x Hx. by apply sorted_unique_elem.
Qed.

Lemma analyze_prevalence_by_era_rows_witness :
  ∃ rows, analyze_prevalence_by_era sqrt_floor (cohort 31) = Ok rows ∧
          er_era <$> rows = ["Era2_1999-2006"] ∧
          sum_list (er_n_total <$> rows) = 31%nat.
Proof.
  destruct (analyze_prevalence_by_era sqrt_floor (cohort 31))
    as [rows|e] eqn:E; [|by vm_compute in E].
  destruct (analyze_prevalence_by_era_rows sqrt_floor (cohort 31)
              (replicate 31 "Era2_1999-2006") rows)
    as (Hera & _ & _ & _ & _ & Hsum); [by vm_compute | done |].
  exists rows. split; [done|]. split.
  - rewrite Hera. by vm_compute.
  - rewrite Hsum. by vm_compute.
Defined.

(** ** The exclusion criteria *)

Lemma apply_exclusions_inv df df' :
  apply_exclusions df = Ok df' →
  ∃ age chd w m1 m2 m3,
    df_num df !! "RIDAGEYR" = Some age ∧
    df_num df !! "chd_composite" = Some chd ∧
    df_num df !! "WTMEC2YR" = Some w ∧
    m1 = series_ge age (Fin 20) ∧
    m2 = series_notna (select m1 chd) ∧
    m3 = series_gt (select m2 (select m1 w)) (Fin 0) ∧
    df' = df_filter (df_filter (df_filter df m1) m2) m3.
Proof.
  unfold apply_exclusions.
  intros (age & Hage%df_col_Ok & H)%bind_Ok_inv.
  apply bind_Ok_inv in H as (chd1 & Hchd%df_col_Ok & H).
  apply bind_Ok_inv in H as (w2 & Hw%df_col_Ok & H).
  injection H as <-.
  rewrite df_filter_lookup in Hchd.
  apply fmap_Some in Hchd as (chd & Hchd & ->).
  rewrite !df_filter_lookup in Hw.
  apply fmap_Some in Hw as (w1 & Hw & ->).
  apply fmap_Some in Hw as (w & Hw & ->).
  exists age, chd, w, (series_ge age (Fin 20)),
    (series_notna (select (series_ge age (Fin 20)) chd)),
    (series_gt (select (series_notna (select (series_ge age (Fin 20)) chd))
                  (select (series_ge age (Fin 20)) w)) (Fin 0)).
  done.
Qed.

Lemma length_filter_id_le (mask : list bool) :
  (length (List.filter id mask) ≤ length mask)%nat.
Proof. apply filter_length_le. Qed.

Lemma select_all_true {A B} (f : A → bool) (s : list A) (s' : list B) :
  Forall (λ x, f x = true) s → length s' = length s →
  select (f <$> s) s' = s'.
Proof.
  unfold select. intros H. revert s'.
  induction H as [|x s Hx _ IH]; intros [|y s']; simpl; try done.
  intros [= Hlen]. rewrite Hx. simpl. f_equal. by apply IH.
Qed.

Lemma filter_id_all_true {A} (f : A → bool) (s : list A) :
  Forall (λ x, f x = true) s →
  length (List.filter id (f <$> s)) = length s.
Proof.
  induction 1 as [|x s Hx _ IH]; [done|].
  rewrite fmap_cons. cbn [List.filter]. rewrite Hx. cbn [id length].
  by rewrite IH.
Qed.

Lemma df_filter_all_true df c (s : Series) (f : fval → bool) :
  df_wf df → df_num df !! c = Some s → Forall (λ x, f x = true) s →
  df_filter df (f <$> s) = df.
Proof.
  intros [Hn Hs] Hc Hall. destruct df as [len num str]. simpl in *.
  pose proof (Hn _ _ Hc) as Hlen. simpl in Hlen.
  unfold df_filter. simpl. f_equal.
  - by rewrite filter_id_all_true.
  - apply map_eq. intros k. rewrite lookup_fmap.
    destruct (num !! k) as [s'|] eqn:E; simpl; [|done].
    f_equal. apply select_all_true; [done|].
    rewrite Hlen. by apply (Hn k).
  - apply map_eq. intros k. rewrite lookup_fmap.
    destruct (str !! k) as [s'|] eqn:E; simpl; [|done].
    f_equal. apply select_all_true; [done|].
    rewrite Hlen. by apply (Hs k).
Qed.

Lemma length_series_mask {A} (f : fval → A) (s : Series) :
  length (f <$> s) = length s.
Proof. apply length_fmap. Qed.

Lemma df_filter_lookup_str df mask c :
  df_str (df_filter df mask) !! c = select mask <$> df_str df !! c.
Proof. unfold df_filter. cbn [df_str]. apply lookup_fmap. Qed.

(** The three masks of the exclusion step, and what the frame that they
    leave satisfies. *)
Lemma exclusions_kept df age chd w :
  df_wf df →
  df_num df !! "RIDAGEYR" = Some age →
  df_num df !! "chd_composite" = Some chd →
  df_num df !! "WTMEC2YR" = Some w →
  ∃ m1 m2 m3,
    apply_exclusions df = Ok (df_filter (df_filter (df_filter df m1) m2) m3) ∧
    df_wf (df_filter (df_filter (df_filter df m1) m2) m3) ∧
    length m1 = df_len df ∧
    length m2 = length (List.filter id m1) ∧
    length m3 = length (List.filter id m2) ∧
    Forall (λ x, F.geb x (Fin 20) = true)
      (select m3 (select m2 (select m1 age))) ∧
    Forall (λ x, negb (F.is_nan x) = true)
      (select m3 (select m2 (select m1 chd))) ∧
    Forall (λ x, F.gtb x (Fin 0) = true)
      (select m3 (select m2 (select m1 w))).
Proof.
  intros Hwf Hage Hchd Hw.
  set (m1 := series_ge age (Fin 20)).
  set (m2 := series_notna (select m1 chd)).
  set (m3 := series_gt (select m2 (select m1 w)) (Fin 0)).
  exists m1, m2, m3.
  pose proof (proj1 Hwf _ _ Hage) as Lage.
  pose proof (proj1 Hwf _ _ Hchd) as Lchd.
  pose proof (proj1 Hwf _ _ Hw) as Lw. simpl in Lage, Lchd, Lw.
  assert (L1 : length m1 = df_len df).
  { unfold m1, series_ge. by rewrite length_fmap. }
  assert (Hwf1 : df_wf (df_filter df m1)) by by apply df_filter_wf.
  assert (L2 : length m2 = length (List.filter id m1)).
  { unfold m2, series_notna. rewrite length_fmap.
    apply (proj1 Hwf1 "chd_composite"). by rewrite df_filter_lookup, Hchd. }
  assert (Hwf2 : df_wf (df_filter (df_filter df m1) m2))
    by by apply df_filter_wf.
  assert (L3 : length m3 = length (List.filter id m2)).
  { unfold m3, series_gt. rewrite length_fmap.
    apply (proj1 Hwf2 "WTMEC2YR"). by rewrite !df_filter_lookup, Hw. }
  assert (Hwf3 : df_wf (df_filter (df_filter (df_filter df m1) m2) m3))
    by by apply df_filter_wf.
  split.
  { unfold apply_exclusions.
    rewrite (df_col_lookup _ _ _ Hage). cbn [mbind result_bind].
    fold m1.
    assert (df_num (df_filter df m1) !! "chd_composite"
            = Some (select m1 chd)) as E1
      by by rewrite df_filter_lookup, Hchd.
    rewrite (df_col_lookup _ _ _ E1). cbn [mbind result_bind]. fold m2.
    assert (df_num (df_filter (df_filter df m1) m2) !! "WTMEC2YR"
            = Some (select m2 (select m1 w))) as E2
      by by rewrite !df_filter_lookup, Hw.
    by rewrite (df_col_lookup _ _ _ E2). }
  repeat (split; [done|]).
  split; [|split].
  - do 2 apply Forall_select.
    apply (select_fmap_Forall (λ x, F.geb x (Fin 20))).
  - apply Forall_select.
    apply (select_fmap_Forall (λ x, negb (F.is_nan x))).
  - apply (select_fmap_Forall (λ x, F.gtb x (Fin 0))).
Qed.

(** The exclusion step of [main] returns exactly when the age, outcome
    and weight columns exist. It keeps every column, the result is well
    formed and no longer than the input, every remaining record has age
    at least 20, a non-missing outcome and a strictly positive weight,
    and applying the step again changes nothing. *)
Theorem apply_exclusions_result df df' :
  df_wf df → apply_exclusions df = Ok df' →
  df_wf df' ∧ (df_len df' ≤ df_len df)%nat ∧
  (∀ c, is_Some (df_num df' !! c) ↔ is_Some (df_num df !! c)) ∧
  (∃ age chd w,
     df_num df' !! "RIDAGEYR" = Some age ∧
     df_num df' !! "chd_composite" = Some chd ∧
     df_num df' !! "WTMEC2YR" = Some w ∧
     Forall (λ x, F.geb x (Fin 20) = true) age ∧
     Forall (λ x, x ≠ NaN) chd ∧
     Forall (λ x, F.gtb x (Fin 0) = true) w) ∧
  apply_exclusions df' = Ok df'.
Proof.
  intros Hwf Hex.
  destruct (apply_exclusions_inv _ _ Hex)
    as (age & chd & w & ? & ? & ? & Hage & Hchd & Hw & _).
  destruct (exclusions_kept _ _ _ _ Hwf Hage Hchd Hw)
    as (m1 & m2 & m3 & E & Hwf3 & L1 & L2 & L3 & Fage & Fchd & Fw).
  rewrite Hex in E. injection E as ->.
  split; [done|]. split.
  { cbn [df_len df_filter].
    pose proof (length_filter_id_le m3).
    pose proof (length_filter_id_le m2).
    pose proof (length_filter_id_le m1). lia. }
  split.
  { intros c. rewrite !df_filter_lookup, !fmap_is_Some. done. }
  split.
  { exists (select m3 (select m2 (select m1 age))),
      (select m3 (select m2 (select m1 chd))),
      (select m3 (select m2 (select m1 w))).
    rewrite !df_filter_lookup, Hage, Hchd, Hw.
    repeat (split; [done|]). split; [|done].
    eapply Forall_impl; [exact Fchd|]. by intros []. }
  set (d := df_filter (df_filter (df_filter df m1) m2) m3) in *.
  assert (Dage : df_num d !! "RIDAGEYR"
                 = Some (select m3 (select m2 (select m1 age)))).
  { unfold d. by rewrite !df_filter_lookup, Hage. }
  assert (Dchd : df_num d !! "chd_composite"
                 = Some (select m3 (select m2 (select m1 chd)))).
  { unfold d. by rewrite !df_filter_lookup, Hchd. }
  assert (Dw : df_num d !! "WTMEC2YR"
               = Some (select m3 (select m2 (select m1 w)))).
  { unfold d. by rewrite !df_filter_lookup, Hw. }
  clearbody d.
  unfold apply_exclusions.
  rewrite (df_col_lookup _ _ _ Dage). cbn [mbind result_bind].
  unfold series_ge. rewrite (df_filter_all_true d _ _ _ Hwf3 Dage Fage).
  rewrite (df_col_lookup _ _ _ Dchd). cbn [mbind result_bind].
  unfold series_notna. rewrite (df_filter_all_true d _ _ _ Hwf3 Dchd Fchd).
  rewrite (df_col_lookup _ _ _ Dw). cbn [mbind result_bind].
  unfold series_gt. by rewrite (df_filter_all_true d _ _ _ Hwf3 Dw Fw).
Qed.

Lemma apply_exclusions_result_witness :
  ∃ df', apply_exclusions (cohort 3) = Ok df' ∧ df_wf df' ∧
         apply_exclusions df' = Ok df'.
Proof.
  destruct (apply_exclusions (cohort 3)) as [df'|e] eqn:E;
    [|by vm_compute in E].
  destruct (apply_exclusions_result (cohort 3) df') as (Hwf & _ & _ & _ & Hid);
    [compute_done | done |].
  by exists df'.
Defined.

(** ** The derived-variable block and the analysis that reads its frame *)

Lemma df_set_wf df name s :
  df_wf df → length s = df_len df → df_wf (df_set df name s).
Proof.
  intros [Hn Hs] Hlen. split; unfold df_set; cbn [df_num df_str df_len].
  - by apply map_Forall_insert_2.
  - by apply map_Forall_delete.
Qed.

Lemma df_set_num_ne df name s c :
  c ≠ name → df_num (df_set df name s) !! c = df_num df !! c.
Proof. intros H. unfold df_set. cbn [df_num]. by rewrite lookup_insert_ne. Qed.

Lemma df_set_num_eq df name s : df_num (df_set df name s) !! name = Some s.
Proof. unfold df_set. cbn [df_num]. by rewrite lookup_insert_eq. Qed.

Lemma df_set_str_ne df name s c :
  c ≠ name → df_str (df_set df name s) !! c = df_str df !! c.
Proof. intros H. unfold df_set. cbn [df_str]. by rewrite lookup_delete_ne. Qed.

Lemma df_get_set_ne df name s c :
  c ≠ name →
  df_get (df_set df name s) c (nan_series (df_len (df_set df name s)))
  = df_get df c (nan_series (df_len df)).
Proof. intros H. unfold df_get. by rewrite df_set_num_ne. Qed.

Lemma df_get_set_eq df name s :
  df_get (df_set df name s) name (nan_series (df_len (df_set df name s))) = s.
Proof. unfold df_get. by rewrite df_set_num_eq. Qed.

Ltac derived_wf_step :=
  match goal with
  | |- df_wf (df_set ?d _ _) =>
      let Hd := fresh "Hd" in
      assert (df_wf d) as Hd;
      [ | apply df_set_wf;
          [ exact Hd
          | by destruct (derived_lengths d continuous Hd)
              as (? & ? & ? & ? & ? & ? & ?) ] ]
  end.

Lemma main_derived_variables_wf combined :
  df_wf combined → df_wf (main_derived_variables combined).
Proof.
  intros Hwf. unfold main_derived_variables. cbv zeta.
  do 7 derived_wf_step. done.
Qed.

Lemma not_elem_of_derived_names c :
  c ∉ derived_names →
  c ≠ "chd_composite" ∧ c ≠ "ldl_calc" ∧ c ≠ "hypertension" ∧
  c ≠ "diabetes" ∧ c ≠ "hyperlipidemia" ∧ c ≠ "obesity" ∧
  c ≠ "smoking_status".
Proof.
  unfold derived_names. rewrite !not_elem_of_cons. tauto.
Qed.

Lemma main_derived_variables_other combined c :
  c ∉ derived_names →
  df_num (main_derived_variables combined) !! c = df_num combined !! c ∧
  df_str (main_derived_variables combined) !! c = df_str combined !! c.
Proof.
  intros (H1 & H2 & H3 & H4 & H5 & H6 & H7)%not_elem_of_derived_names.
  unfold main_derived_variables. cbv zeta.
  by rewrite !df_set_num_ne, !df_set_str_ne.
Qed.

Lemma main_derived_variables_chd combined :
  df_num (main_derived_variables combined) !! "chd_composite"
  = Some (create_chd_composite combined continuous).
Proof.
  unfold main_derived_variables. cbv zeta.
  rewrite !df_set_num_ne by done. apply df_set_num_eq.
Qed.

(** The block keeps the frame well formed and of the same length, leaves
    every other column as it was, and stores seven columns. Six of them
    are the derived-variable functions applied to the combined frame
    itself, whatever was assigned before them; hyperlipidemia is the one
    that reads a column assigned earlier in the block, the calculated
    LDL, which replaces an LDL column that the frame may have had. *)
Theorem main_derived_variables_columns combined :
  df_wf combined →
  df_wf (main_derived_variables combined) ∧
  df_len (main_derived_variables combined) = df_len combined ∧
  (∀ c, c ∉ derived_names →
     df_num (main_derived_variables combined) !! c = df_num combined !! c ∧
     df_str (main_derived_variables combined) !! c = df_str combined !! c) ∧
  (∀ c, c ∈ derived_names →
     is_Some (df_num (main_derived_variables combined) !! c) ∧
     df_str (main_derived_variables combined) !! c = None) ∧
  df_num (main_derived_variables combined) !! "chd_composite"
    = Some (create_chd_composite combined continuous) ∧
  df_num (main_derived_variables combined) !! "ldl_calc"
    = Some (calculate_ldl combined) ∧
  df_num (main_derived_variables combined) !! "diabetes"
    = Some (define_diabetes combined) ∧
  df_num (main_derived_variables combined) !! "obesity"
    = Some (define_obesity combined) ∧
  df_num (main_derived_variables combined) !! "smoking_status"
    = Some (define_smoking_status combined) ∧
  df_num (main_derived_variables combined) !! "hyperlipidemia"
    = Some (define_hyperlipidemia
              (df_set combined "ldl_calc" (calculate_ldl combined))).
Proof.
  intros Hwf.
  split; [by apply main_derived_variables_wf|].
  split; [done|].
  split; [apply main_derived_variables_other|].
  split.
  { intros c Hc. unfold derived_names in Hc.
    rewrite !elem_of_cons, elem_of_nil in Hc.
    unfold main_derived_variables. cbv zeta.
    destruct Hc as [->|[->|[->|[->|[->|[->|[->|[]]]]]]]]; split;
      try (rewrite ?df_set_num_ne by done; rewrite df_set_num_eq; done);
      unfold df_set; cbn [df_str];
      rewrite ?lookup_delete_ne by done; apply lookup_delete_eq. }
  split; [apply main_derived_variables_chd|].
  unfold main_derived_variables. cbv zeta.
  repeat split.
  - rewrite !df_set_num_ne by done. rewrite df_set_num_eq. f_equal.
    unfold calculate_ldl. by rewrite !df_get_set_ne.
  - rewrite !df_set_num_ne by done. rewrite df_set_num_eq. f_equal.
    unfold define_diabetes. by rewrite !df_get_set_ne.
  - rewrite !df_set_num_ne by done. rewrite df_set_num_eq. f_equal.
    unfold define_obesity. by rewrite !df_get_set_ne.
  - rewrite df_set_num_eq. f_equal.
    unfold define_smoking_status. by rewrite !df_get_set_ne.
  - rewrite !df_set_num_ne by done. rewrite df_set_num_eq. f_equal.
    unfold define_hyperlipidemia.
    repeat (rewrite df_get_set_eq || rewrite df_get_set_ne by done).
    unfold calculate_ldl. by rewrite !df_get_set_ne.
Qed.

Lemma main_derived_variables_columns_witness :
  df_wf (main_derived_variables sample_combined) ∧
  df_num (main_derived_variables sample_combined) !! "hyperlipidemia"
    = Some [Fin 1; Fin 0; Fin 1; Fin 0].
Proof.
  destruct (main_derived_variables_columns sample_combined)
    as (Hwf & _ & _ & _ & _ & _ & _ & _ & _ & Hlip); [compute_done|].
  split; [exact Hwf|]. rewrite Hlip. f_equal.
Defined.



Lemma Forall_set_where (P : fval → Prop) s mask v :
  Forall P s → P v → Forall P (set_where s mask v).
Proof.
  intros Hs Hv. unfold set_where. revert mask.
  induction Hs as [|x s Hx _ IH]; intros [|b mask]; simpl; try constructor.
  - by destruct b.
  - apply IH.
Qed.

Lemma Forall_nan_series (P : fval → Prop) k : P NaN → Forall P (nan_series k).
Proof. intros H. unfold nan_series. by apply Forall_replicate. Qed.

Lemma create_chd_composite_range df t :
  Forall (λ x, x = Fin 1 ∨ x = Fin 0 ∨ x = NaN) (create_chd_composite df t).
Proof.
  unfold create_chd_composite. cbv zeta.
  apply Forall_set_where; [|by auto].
  apply Forall_set_where; [|by auto].
  apply Forall_nan_series. auto.
Qed.

(** The frame that the derived-variable block of script 02 stores passes
    through the analysis of script 03 without an exception whenever the
    combined frame has the age and weight columns and the era tag: the
    exclusion step returns a well-formed frame in which every outcome is
    0 or 1, and on that frame the era analyzer and the subgroup analyzer,
    for any subgroup column of the frame and any labels, return a table. *)
Theorem derived_frame_analysis_returns sqrtQ combined eras :
  df_wf combined →
  df_str combined !! "era" = Some eras →
  is_Some (df_num combined !! "RIDAGEYR") →
  is_Some (df_num combined !! "WTMEC2YR") →
  ∃ df chd,
    apply_exclusions (main_derived_variables combined) = Ok df ∧
    df_wf df ∧
    df_num df !! "chd_composite" = Some chd ∧
    Forall (λ x, x = Fin 0 ∨ x = Fin 1) chd ∧
    (∃ rows, analyze_prevalence_by_era sqrtQ df = Ok rows) ∧
    (∀ var labels, is_Some (df_num df !! var) →
       ∃ rows, analyze_by_subgroup sqrtQ df var labels = Ok rows).
Proof.
  intros Hwf Hera [age Hage] [w Hw].
  pose proof (main_derived_variables_wf _ Hwf) as Hwf'.
  pose proof (main_derived_variables_chd combined) as Hchd'.
  destruct (main_derived_variables_other combined "RIDAGEYR") as [Hage' _].
  { unfold derived_names. rewrite !not_elem_of_cons. repeat split; try done.
    apply not_elem_of_nil. }
  destruct (main_derived_variables_other combined "WTMEC2YR") as [Hw' _].
  { unfold derived_names. rewrite !not_elem_of_cons. repeat split; try done.
    apply not_elem_of_nil. }
  destruct (main_derived_variables_other combined "era") as [_ Hera'].
  { unfold derived_names. rewrite !not_elem_of_cons. repeat split; try done.
    apply not_elem_of_nil. }
  rewrite Hage in Hage'. rewrite Hw in Hw'. rewrite Hera in Hera'.
  destruct (exclusions_kept _ _ _ _ Hwf' Hage' Hchd' Hw')
    as (m1 & m2 & m3 & E & Hwf3 & L1 & L2 & L3 & Fage & Fchd & Fw).
  set (out := main_derived_variables combined) in *.
  set (chd0 := create_chd_composite combined continuous) in *.
  exists (df_filter (df_filter (df_filter out m1) m2) m3),
    (select m3 (select m2 (select m1 chd0))).
  assert (Hbin : Forall (λ x, x = Fin 0 ∨ x = Fin 1)
                   (select m3 (select m2 (select m1 chd0)))).
  { assert (Forall (λ x, x = Fin 1 ∨ x = Fin 0 ∨ x = NaN)
              (select m3 (select m2 (select m1 chd0)))) as Hr.
    { do 3 apply Forall_select. apply create_chd_composite_range. }
    rewrite Forall_forall in Hr, Fchd. apply Forall_forall. intros x Hx.
    specialize (Hr x Hx). specialize (Fchd x Hx).
    destruct Hr as [-> | [-> | ->]]; [by right | by left | done]. }
  assert (Dchd : df_num (df_filter (df_filter (df_filter out m1) m2) m3)
                   !! "chd_composite"
                 = Some (select m3 (select m2 (select m1 chd0))))
    by by rewrite !df_filter_lookup, Hchd'.
  assert (Dw : df_num (df_filter (df_filter (df_filter out m1) m2) m3)
                 !! "WTMEC2YR"
               = Some (select m3 (select m2 (select m1 w))))
    by by rewrite !df_filter_lookup, Hw'.
  assert (Dage : is_Some (df_num (df_filter (df_filter (df_filter out m1) m2)
                            m3) !! "RIDAGEYR"))
    by by rewrite !df_filter_lookup, Hage'.
  assert (Dera : df_str (df_filter (df_filter (df_filter out m1) m2) m3)
                   !! "era"
                 = Some (select m3 (select m2 (select m1 eras))))
    by by rewrite !df_filter_lookup_str, Hera'.
  assert (Hready : analysis_ready
                     (df_filter (df_filter (df_filter out m1) m2) m3)).
  { exists (select m3 (select m2 (select m1 chd0))),
      (select m3 (select m2 (select m1 w))).
    repeat (split; [done|]). split.
    - eapply Forall_impl; [exact Hbin|]. intros x [-> | ->]; by eexists.
    - eapply Forall_impl; [exact Fw|]. by intros []. }
  destruct (analyzers_total sqrtQ _ _ Hwf3 Hready Dera) as [Hprev Hsub].
  repeat (split; [done|]). split; [by apply Hprev | exact Hsub].
Qed.

Lemma derived_frame_analysis_returns_witness :
  ∃ df, apply_exclusions (main_derived_variables sample_combined) = Ok df ∧
        df_len df = 2%nat ∧
        (∃ rows, analyze_prevalence_by_era sqrt_floor df = Ok rows) ∧
        (∃ rows, analyze_by_subgroup sqrt_floor df "RIAGENDR" sex_labels
                 = Ok rows).
Proof.
  destruct (derived_frame_analysis_returns sqrt_floor sample_combined
              (replicate 4 "Era2_1999-2006"))
    as (df & chd & E & Hwf & Hchd & Hbin & Hprev & Hsub);
    [compute_done | done | by eexists | by eexists |].
  exists df. split; [done|].
  assert (df_len df = 2%nat ∧ is_Some (df_num df !! "RIAGENDR")) as [Hl Hs].
  { vm_compute in E. injection E as <-. split; [done | by eexists]. }
  split; [done|]. split; [done|]. by apply Hsub.
Defined.

(** ** The risk-factor table *)

Lemma length_select_le {A} (mask : list bool) (s : list A) :
  (length (select mask s) ≤ length (List.filter id mask))%nat.
Proof.
  unfold select. rewrite length_fmap. revert mask.
  induction s as [|x s IH]; intros [|b mask]; cbn; try lia.
  specialize (IH mask). destruct b; cbn; lia.
Qed.

Lemma dropna2_nonempty_l (o w : Series) : dropna2 o w ≠ [] → o ≠ [].
Proof. unfold dropna2. by destruct o. Qed.

Lemma risk_factor_loop_entries sqrtQ era_df rfs factors :
  risk_factor_loop sqrtQ era_df rfs = Ok factors →
  factors.*1
  = List.filter (λ rf, bool_decide (is_Some (df_num era_df !! rf))) rfs ∧
  Forall (λ e, ∃ o, df_num era_df !! e.1 = Some o ∧ o ≠ []) factors.
Proof.
  revert factors. induction rfs as [|rf rfs IH]; intros factors.
  - intros [= <-]. by split.
  - cbn [risk_factor_loop List.filter].
    destruct (bool_decide (is_Some (df_num era_df !! rf))) eqn:Hrf.
    + intros (prev & Hprev & H)%bind_Ok_inv.
      apply bind_Ok_inv in H as (cases & Hcases & H).
      apply bind_Ok_inv in H as (rest & Hrest & H).
      injection H as <-. destruct (IH _ Hrest) as [IH1 IH2].
      split; [cbn; by rewrite IH1|].
      constructor; [|done]. cbn.
      apply estimator_Ok_inv in Hprev
        as (o & w & Ho & Hw & [[_ ->]|[Hne _]]); [done|].
      exists o. split; [done | by eapply dropna2_nonempty_l].
    + apply IH.
Qed.

(** When the risk-factor analyzer returns its table, the table has one
    row per distinct era in sorted order; the row counts the records of
    the era whose outcome is 1, and its entries are keyed by the
    risk-factor columns that the frame has, in the order hypertension,
    diabetes, hyperlipidemia, obesity. A row with an entry belongs to an
    era with at least one CHD case: an era without one makes the
    analyzer raise instead of returning a row. *)
Theorem analyze_risk_factors_by_era_rows sqrtQ df eras chd rows :
  df_str df !! "era" = Some eras →
  df_num df !! "chd_composite" = Some chd →
  analyze_risk_factors_by_era sqrtQ df = Ok rows →
  rr_era <$> rows = sorted_unique eras ∧
  Forall (λ row,
    rr_n_chd row
    = length (List.filter id (mask_and (str_eq eras (rr_era row))
                                       (series_eq chd (Fin 1)))) ∧
    (rr_factors row).*1
    = List.filter (λ rf, bool_decide (is_Some (df_num df !! rf)))
        risk_factors ∧
    (rr_factors row ≠ [] → (0 < rr_n_chd row)%nat)) rows.
Proof.
  intros Hera Hchd. unfold analyze_risk_factors_by_era, df_scol.
  rewrite Hera. cbn [mbind result_bind].
  rewrite (df_col_lookup _ _ _ Hchd).
  intros H%mapM_Ok.
  generalize dependent (sorted_unique eras). intros l H.
  induction H as [|era row l rows Hrow _ [IH1 IH2]]; [by split|].
  cbn [mbind result_bind] in Hrow.
  apply bind_Ok_inv in Hrow as (factors & Hf & Hrow). injection Hrow as <-.
  apply risk_factor_loop_entries in Hf as [Hkeys Hent].
  split; [by rewrite !fmap_cons, IH1|].
  constructor; [|done]. cbn [rr_era rr_n_chd rr_factors].
  split; [done|]. split.
  - rewrite Hkeys. apply filter_ext. intros rf.
    apply bool_decide_ext. by rewrite df_filter_lookup, fmap_is_Some.
  - intros Hne. destruct factors as [|e factors]; [done|].
    apply Forall_cons_1 in Hent as [(o & Ho & Hne') _].
    rewrite df_filter_lookup in Ho.
    apply fmap_Some in Ho as (col & _ & ->).
    cbn [df_len df_filter].
    pose proof (length_select_le
                  (mask_and (str_eq eras era) (series_eq chd (Fin 1))) col).
    destruct (select _ col); [done | cbn in *; lia].
Qed.

Lemma analyze_risk_factors_by_era_rows_witness :
  ∃ rows, analyze_risk_factors_by_era sqrt_floor sample_risk_factors = Ok rows ∧
          rr_era <$> rows = ["Era2_1999-2006"] ∧
          Forall (λ row, (rr_factors row).*1 = ["hypertension"; "obesity"] ∧
                         (0 < rr_n_chd row)%nat) rows.
Proof.
  destruct (analyze_risk_factors_by_era sqrt_floor sample_risk_factors)
    as [rows|e] eqn:E; [|by vm_compute in E].
  destruct (analyze_risk_factors_by_era_rows sqrt_floor sample_risk_factors
              (replicate 3 "Era2_1999-2006") [Fin 1; Fin 0; Fin 1] rows)
    as [Hera Hrows]; [done | done | done |].
  exists rows. split; [done|]. split; [by rewrite Hera|].
  eapply Forall_impl; [exact Hrows|]. cbn beta.
  intros row (_ & Hk & Hpos).
  assert ((rr_factors row).*1 = ["hypertension"; "obesity"]) as Hk'
    by (rewrite Hk; by vm_compute).
  split; [exact Hk'|]. apply Hpos. intros Hnil. by rewrite Hnil in Hk'.
Defined.

(** ** Harmonizing the 1988-1994 file *)

Lemma rename_one_self {A} (m : gmap string A) k : rename_one m k k = m.
Proof.
  unfold rename_one. destruct (m !! k) as [s|] eqn:E; [|done].
  apply map_eq. intros k'. destruct (decide (k = k')) as [<-|Hne].
  - by rewrite lookup_insert_eq.
  - by rewrite lookup_insert_ne, lookup_delete_ne.
Qed.

Lemma rename_one_target {A} (m : gmap string A) old new :
  m !! new = None → rename_one m old new !! new = m !! old.
Proof.
  intros H. unfold rename_one. destruct (m !! old) as [s|] eqn:E.
  - by rewrite lookup_insert_eq.
  - done.
Qed.

Lemma rename_one_old {A} (m : gmap string A) old new :
  old ≠ new → rename_one m old new !! old = None.
Proof.
  intros H. unfold rename_one. destruct (m !! old) as [s|] eqn:E; [|done].
  rewrite lookup_insert_ne by done. apply lookup_delete_eq.
Qed.

Lemma rename_one_Forall {A} (P : A → Prop) (m : gmap string A) old new :
  map_Forall (λ _, P) m → map_Forall (λ _, P) (rename_one m old new).
Proof.
  intros H. unfold rename_one. destruct (m !! old) as [s|] eqn:E; [|done].
  apply map_Forall_insert_2; [by apply (H old)|]. by apply map_Forall_delete.
Qed.

Lemma rename_fold_Forall {A} (P : A → Prop) mapping (m : gmap string A) :
  map_Forall (λ _, P) m →
  map_Forall (λ _, P) (foldl (λ m p, rename_one m p.1 p.2) m mapping).
Proof.
  revert m. induction mapping as [|p mapping IH]; intros m H; simpl; [done|].
  by apply IH, rename_one_Forall.
Qed.

Lemma df_rename_wf df mapping : df_wf df → df_wf (df_rename df mapping).
Proof.
  intros [Hn Hs]. split; unfold df_rename; cbn [df_num df_str df_len].
  - by apply (rename_fold_Forall (λ s, length s = df_len df)).
  - by apply (rename_fold_Forall (λ s, length s = df_len df)).
Qed.

Lemma df_set_str_wf df name s :
  df_wf df → length s = df_len df → df_wf (df_set_str df name s).
Proof.
  intros [Hn Hs] Hlen. split; unfold df_set_str; cbn [df_num df_str df_len].
  - by apply map_Forall_delete.
  - by apply map_Forall_insert_2.
Qed.

Lemma df_loc_set_wf df mask name v :
  df_wf df → length mask = df_len df → df_wf (df_loc_set df mask name v).
Proof.
  intros [Hn Hs] Hlen. split; unfold df_loc_set; cbn [df_num df_str df_len];
    [|done].
  intros k s. destruct (decide (name = k)) as [<-|Hne].
  - rewrite lookup_alter_eq. intros (s0 & E & ->)%fmap_Some.
    unfold set_where. rewrite length_zip_with, Hlen, (Hn _ _ E). lia.
  - rewrite lookup_alter_ne by done. apply Hn.
Qed.

Ltac strip_renames :=
  match goal with
  | |- context [rename_one _ _ _ !! ?k] =>
      rewrite ?(rename_one_other _ _ _ k) by discriminate
  end.

Lemma df_rename_target df old new :
  (old, new) ∈ nhanes_iii_renames →
  (old ≠ new → df_num df !! new = None) →
  df_num (df_rename df nhanes_iii_renames) !! new = df_num df !! old.
Proof.
  intros Hin Habs. unfold nhanes_iii_renames in Hin.
  rewrite !elem_of_cons, elem_of_nil in Hin.
  unfold df_rename, nhanes_iii_renames. cbn [df_num foldl fst snd].
  rewrite rename_one_self.
  destruct Hin as [[= -> ->]|[[= -> ->]|[[= -> ->]|[[= -> ->]|[[= -> ->]|
    [[= -> ->]|[[= -> ->]|[[= -> ->]|[]]]]]]]]];
    try (by rewrite !rename_one_other by discriminate);
    strip_renames;
    (rewrite rename_one_target;
     [ by rewrite ?rename_one_other by discriminate
     | rewrite ?rename_one_other by discriminate; by apply Habs ]).
Qed.

Lemma df_rename_source df old new :
  (old, new) ∈ nhanes_iii_renames → old ≠ new →
  df_num (df_rename df nhanes_iii_renames) !! old = None.
Proof.
  intros Hin Hne. unfold nhanes_iii_renames in Hin.
  rewrite !elem_of_cons, elem_of_nil in Hin.
  unfold df_rename, nhanes_iii_renames. cbn [df_num foldl fst snd].
  rewrite rename_one_self.
  destruct Hin as [[= -> ->]|[[= -> ->]|[[= -> ->]|[[= -> ->]|[[= -> ->]|
    [[= -> ->]|[[= -> ->]|[[= -> ->]|[]]]]]]]]]; [done|..];
    strip_renames; by apply rename_one_old.
Qed.

Lemma df_rename_other df k :
  Forall (λ p : string * string, k ≠ p.1 ∧ k ≠ p.2) nhanes_iii_renames →
  df_num (df_rename df nhanes_iii_renames) !! k = df_num df !! k.
Proof. intros Hk. unfold df_rename. cbn [df_num]. by apply rename_fold_other. Qed.

(** The frame that [harmonize_nhanes_iii] returns, written out. *)
Lemma harmonize_nhanes_iii_eq df race had1 had2 had3 :
  df_num (df_rename df nhanes_iii_renames) !! "RIDRETH1" = Some race →
  df_num df !! "HAD1" = Some had1 → df_num df !! "HAD2" = Some had2 →
  df_num df !! "HAD3" = Some had3 →
  harmonize_nhanes_iii df =
  Ok (df_set_str
        (df_set_str
           (df_loc_set
              (df_loc_set
                 (df_set
                    (df_set (df_rename df nhanes_iii_renames) "RIDRETH1"
                       (series_map race_recode race))
                    "chd_composite" (nan_series (df_len df)))
                 (mask_or (mask_or (series_eq had1 (Fin 1))
                                   (series_eq had2 (Fin 1)))
                          (series_eq had3 (Fin 1)))
                 "chd_composite" (Fin 1))
              (mask_and (mask_and (series_eq had1 (Fin 2))
                                  (series_eq had2 (Fin 2)))
                        (series_eq had3 (Fin 2)))
              "chd_composite" (Fin 0))
           "era" (replicate (df_len df) "Era1_1988-1994"))
        "cycle" (replicate (df_len df) "1988-1994")).
Proof.
  intros Hrace H1 H2 H3. unfold harmonize_nhanes_iii.
  fold nhanes_iii_renames. cbv zeta.
  rewrite (df_col_lookup _ _ _ Hrace). cbn [mbind result_bind].
  assert (∀ k s, df_num df !! k = Some s →
            Forall (λ p : string * string, k ≠ p.1 ∧ k ≠ p.2)
              nhanes_iii_renames →
            k ≠ "RIDRETH1" → k ≠ "chd_composite" →
            df_col (df_set (df_set (df_rename df nhanes_iii_renames)
                      "RIDRETH1" (series_map race_recode race))
                      "chd_composite"
                      (nan_series (df_len (df_set
                         (df_rename df nhanes_iii_renames) "RIDRETH1"
                         (series_map race_recode race))))) k = Ok s) as Hcol.
  { intros k s Hk Hother Hk1 Hk2. apply df_col_lookup.
    rewrite !df_set_num_ne by done. by rewrite df_rename_other. }
  rewrite (Hcol _ _ H1) by (names_differ || done). cbn [mbind result_bind].
  rewrite (Hcol _ _ H2) by (names_differ || done). cbn [mbind result_bind].
  rewrite (Hcol _ _ H3) by (names_differ || done). cbn [mbind result_bind].
  reflexivity.
Qed.

Lemma harmonize_masks_length (had1 had2 had3 : Series) k u v :
  length had1 = k → length had2 = k → length had3 = k →
  length (mask_or (mask_or (series_eq had1 u) (series_eq had2 u))
                  (series_eq had3 u)) = k ∧
  length (mask_and (mask_and (series_eq had1 v) (series_eq had2 v))
                   (series_eq had3 v)) = k.
Proof.
  intros L1 L2 L3. unfold mask_or, mask_and, series_eq.
  rewrite !length_zip_with, !length_fmap. lia.
Qed.

(** On a well-formed numeric frame that has the race column and the
    three CHD indicators and none of the target names yet,
    [harmonize_nhanes_iii] returns a well-formed frame of the same
    length in which every renamed column holds the data of its source
    column, the source names are gone, the race column is the recoded
    one, the columns that the function does not name are untouched, and
    every record is tagged with the era and the cycle of the survey. *)
Theorem harmonize_nhanes_iii_columns df :
  df_wf df → df_str df = ∅ →
  (∀ old new, (old, new) ∈ nhanes_iii_renames → old ≠ new →
     df_num df !! new = None) →
  is_Some (df_num df !! "DMARETHN") →
  is_Some (df_num df !! "HAD1") → is_Some (df_num df !! "HAD2") →
  is_Some (df_num df !! "HAD3") →
  ∃ df' race,
    harmonize_nhanes_iii df = Ok df' ∧
    df_wf df' ∧ df_len df' = df_len df ∧
    df_num df !! "DMARETHN" = Some race ∧
    df_num df' !! "RIDRETH1" = Some (series_map race_recode race) ∧
    (∀ old new, (old, new) ∈ nhanes_iii_renames → new ≠ "RIDRETH1" →
       df_num df' !! new = df_num df !! old) ∧
    (∀ old new, (old, new) ∈ nhanes_iii_renames → old ≠ new →
       df_num df' !! old = None) ∧
    (∀ k, Forall (λ p : string * string, k ≠ p.1 ∧ k ≠ p.2)
            nhanes_iii_renames →
          k ∉ ["chd_composite"; "era"; "cycle"] →
          df_num df' !! k = df_num df !! k) ∧
    df_str df' !! "era" = Some (replicate (df_len df) "Era1_1988-1994") ∧
    df_str df' !! "cycle" = Some (replicate (df_len df) "1988-1994").
Proof.
  intros Hwf Hstr Habs [race Hr] [had1 H1] [had2 H2] [had3 H3].
  assert (Hrace : df_num (df_rename df nhanes_iii_renames) !! "RIDRETH1"
                  = Some race).
  { rewrite (df_rename_target df "DMARETHN" "RIDRETH1"); [done | |].
    - unfold nhanes_iii_renames. rewrite !elem_of_cons. tauto.
    - intros _. apply (Habs "DMARETHN"); [|done].
      unfold nhanes_iii_renames. rewrite !elem_of_cons. tauto. }
  eexists _, race. split.
  { by apply (harmonize_nhanes_iii_eq df race had1 had2 had3). }
  pose proof (proj1 Hwf _ _ Hr) as Lr.
  pose proof (proj1 Hwf _ _ H1) as L1.
  pose proof (proj1 Hwf _ _ H2) as L2.
  pose proof (proj1 Hwf _ _ H3) as L3. cbn beta in Lr, L1, L2, L3.
  destruct (harmonize_masks_length had1 had2 had3 (df_len df) (Fin 1) (Fin 2)
              L1 L2 L3) as [Lyes Lno].
  split.
  { apply df_set_str_wf; [|by rewrite length_replicate].
    apply df_set_str_wf; [|by rewrite length_replicate].
    apply df_loc_set_wf; [|done]. apply df_loc_set_wf; [|done].
    apply df_set_wf; [|by apply length_replicate].
    apply df_set_wf; [by apply df_rename_wf|].
    unfold series_map. by rewrite length_fmap. }
  split; [done|]. split; [done|].
  unfold df_set_str, df_loc_set, df_set. cbn [df_num df_str df_len].
  split.
  { rewrite !lookup_delete_ne, !lookup_alter_ne, lookup_insert_ne by done.
    apply lookup_insert_eq. }
  split.
  { intros old new Hin Hnew. pose proof Hin as Hin'.
    unfold nhanes_iii_renames in Hin'.
    rewrite !elem_of_cons, elem_of_nil in Hin'.
    rewrite <- (df_rename_target df old new Hin (Habs old new Hin)).
    destruct Hin' as [[= -> ->]|[[= -> ->]|[[= -> ->]|[[= -> ->]|[[= -> ->]|
      [[= -> ->]|[[= -> ->]|[[= -> ->]|[]]]]]]]]]; try done;
      by rewrite !lookup_delete_ne, !lookup_alter_ne, !lookup_insert_ne
        by done. }
  split.
  { intros old new Hin Hne. pose proof Hin as Hin'.
    unfold nhanes_iii_renames in Hin'.
    rewrite !elem_of_cons, elem_of_nil in Hin'.
    rewrite <- (df_rename_source df old new Hin Hne).
    destruct Hin' as [[= -> ->]|[[= -> ->]|[[= -> ->]|[[= -> ->]|[[= -> ->]|
      [[= -> ->]|[[= -> ->]|[[= -> ->]|[]]]]]]]]]; try done;
      by rewrite !lookup_delete_ne, !lookup_alter_ne, !lookup_insert_ne
        by done. }
  split.
  { intros k Hk Hk'. rewrite !not_elem_of_cons in Hk'.
    destruct Hk' as (Hk1 & Hk2 & Hk3 & _).
    assert (k ≠ "RIDRETH1") as Hk4.
    { unfold nhanes_iii_renames in Hk.
      do 3 apply Forall_cons_1 in Hk as [_ Hk].
      apply Forall_cons_1 in Hk as [[_ Hk] _]. exact Hk. }
    rewrite !lookup_delete_ne, !lookup_alter_ne, !lookup_insert_ne by done.
    by apply df_rename_other. }
  split.
  - rewrite lookup_insert_ne by done. apply lookup_insert_eq.
  - apply lookup_insert_eq.
Qed.

Lemma harmonize_nhanes_iii_columns_witness :
  ∃ df', harmonize_nhanes_iii sample_adult = Ok df' ∧ df_wf df' ∧
         df_num df' !! "RIDAGEYR" = Some [Fin 21; Fin 32; Fin 48] ∧
         df_num df' !! "HSAGEIR" = None ∧
         df_str df' !! "era" = Some (replicate 3 "Era1_1988-1994").
Proof.
  destruct (harmonize_nhanes_iii_columns sample_adult)
    as (df' & race & E & Hwf & _ & _ & _ & Hnew & Hold & _ & Hera & _);
    [compute_done | done | | by eexists | by eexists | by eexists
     | by eexists |].
  { intros old new Hin Hne. unfold nhanes_iii_renames in Hin.
    rewrite !elem_of_cons, elem_of_nil in Hin.
    destruct Hin as [[= -> ->]|[[= -> ->]|[[= -> ->]|[[= -> ->]|[[= -> ->]|
      [[= -> ->]|[[= -> ->]|[[= -> ->]|[]]]]]]]]]; done. }
  exists df'. split; [done|]. split; [done|].
  assert (("HSAGEIR", "RIDAGEYR") ∈ nhanes_iii_renames) as Hin.
  { unfold nhanes_iii_renames. rewrite !elem_of_cons. tauto. }
  split; [by rewrite (Hnew _ _ Hin)|].
  split; [by apply (Hold _ _ Hin) | exact Hera].
Defined.



Lemma df_col_None df name :
  df_num df !! name = None → df_col df name = Raise (KeyError name).
Proof. intros H. unfold df_col. by rewrite H. Qed.

(** The only exceptions of [harmonize_nhanes_iii] on a numeric frame
    are key errors for the race column and the three CHD indicators, in
    that order; a missing age, sex, weight or design column is not one:
    the renaming skips it. *)
Theorem harmonize_nhanes_iii_errors df :
  df_str df = ∅ → df_num df !! "RIDRETH1" = None →
  (df_num df !! "DMARETHN" = None →
   harmonize_nhanes_iii df = Raise (KeyError "RIDRETH1")) ∧
  (is_Some (df_num df !! "DMARETHN") → df_num df !! "HAD1" = None →
   harmonize_nhanes_iii df = Raise (KeyError "HAD1")) ∧
  (is_Some (df_num df !! "DMARETHN") → is_Some (df_num df !! "HAD1") →
   df_num df !! "HAD2" = None →
   harmonize_nhanes_iii df = Raise (KeyError "HAD2")) ∧
  (is_Some (df_num df !! "DMARETHN") → is_Some (df_num df !! "HAD1") →
   is_Some (df_num df !! "HAD2") → df_num df !! "HAD3" = None →
   harmonize_nhanes_iii df = Raise (KeyError "HAD3")) ∧
  (is_Some (df_num df !! "DMARETHN") → is_Some (df_num df !! "HAD1") →
   is_Some (df_num df !! "HAD2") → is_Some (df_num df !! "HAD3") →
   ∃ df', harmonize_nhanes_iii df = Ok df').
Proof.
  intros _ Habs.
  assert (Hrace : df_num (df_rename df nhanes_iii_renames) !! "RIDRETH1"
                  = df_num df !! "DMARETHN").
  { apply df_rename_target; [|done].
    unfold nhanes_iii_renames. rewrite !elem_of_cons. tauto. }
  assert (Hcol : ∀ k s,
            Forall (λ p : string * string, k ≠ p.1 ∧ k ≠ p.2)
              nhanes_iii_renames →
            k ≠ "RIDRETH1" → k ≠ "chd_composite" →
            df_col (df_set (df_set (df_rename df nhanes_iii_renames)
                      "RIDRETH1" s) "chd_composite"
                      (nan_series (df_len (df_set
                         (df_rename df nhanes_iii_renames) "RIDRETH1" s)))) k
            = df_col df k).
  { intros k s Hother Hk1 Hk2. unfold df_col.
    rewrite !df_set_num_ne by done. by rewrite df_rename_other. }
  split; [|split; [|split; [|split]]].
  - intros Hr. unfold harmonize_nhanes_iii. fold nhanes_iii_renames.
    cbv zeta. rewrite Hr in Hrace. by rewrite (df_col_None _ _ Hrace).
  - intros [race Hr] H1. unfold harmonize_nhanes_iii.
    fold nhanes_iii_renames. cbv zeta. rewrite Hr in Hrace.
    rewrite (df_col_lookup _ _ _ Hrace). cbn [mbind result_bind].
    rewrite !Hcol by (names_differ || done).
    by rewrite (df_col_None _ _ H1).
  - intros [race Hr] [had1 H1] H2. unfold harmonize_nhanes_iii.
    fold nhanes_iii_renames. cbv zeta. rewrite Hr in Hrace.
    rewrite (df_col_lookup _ _ _ Hrace). cbn [mbind result_bind].
    rewrite !Hcol by (names_differ || done).
    rewrite (df_col_lookup _ _ _ H1). cbn [mbind result_bind].
    by rewrite (df_col_None _ _ H2).
  - intros [race Hr] [had1 H1] [had2 H2] H3. unfold harmonize_nhanes_iii.
    fold nhanes_iii_renames. cbv zeta. rewrite Hr in Hrace.
    rewrite (df_col_lookup _ _ _ Hrace). cbn [mbind result_bind].
    rewrite !Hcol by (names_differ || done).
    rewrite (df_col_lookup _ _ _ H1). cbn [mbind result_bind].
    rewrite (df_col_lookup _ _ _ H2). cbn [mbind result_bind].
    by rewrite (df_col_None _ _ H3).
  - intros [race Hr] [had1 H1] [had2 H2] [had3 H3]. rewrite Hr in Hrace.
    eexists. by apply (harmonize_nhanes_iii_eq df race had1 had2 had3).
Qed.

Lemma harmonize_nhanes_iii_errors_witness :
  harmonize_nhanes_iii sample_no_bmi = Raise (KeyError "RIDRETH1") ∧
  ∃ df', harmonize_nhanes_iii sample_adult = Ok df'.
Proof.
  split.
  - destruct (harmonize_nhanes_iii_errors sample_no_bmi) as [H _];
      [done | done |]. by apply H.
  - destruct (harmonize_nhanes_iii_errors sample_adult)
      as (_ & _ & _ & _ & H); [done | done |].
    apply H; by eexists.
Defined.

(** ** Case counts of the era table *)

Lemma count_cases_zip (o w : Series) :
  length o = length w →
  count_cases (zip o w) = length (List.filter (λ x, F.eqb x (Fin 1)) o).
Proof.
  unfold count_cases. revert w.
  induction o as [|x o IH]; intros [|y w]; try done.
  intros [= Hlen]. cbn [zip zip_with List.filter fst].
  destruct (F.eqb x (Fin 1)); cbn [length]; by rewrite IH.
Qed.

Lemma estimator_binary_cases sqrtQ df r c o w :
  calculate_survey_weighted_prevalence sqrtQ df "chd_composite" "WTMEC2YR"
  = Ok r →
  get_n_cases r = Ok c →
  df_num df !! "chd_composite" = Some o → df_num df !! "WTMEC2YR" = Some w →
  Forall (λ x, x = Fin 0 ∨ x = Fin 1) o → Forall (λ x, x ≠ NaN) w →
  length o = length w →
  c = Z.of_nat (length (List.filter (λ x, F.eqb x (Fin 1)) o)).
Proof.
  intros Hr Hc Ho Hw Hbin Hnn Hlen.
  apply estimator_Ok_inv in Hr as (o' & w' & Ho' & Hw' & Hcase).
  rewrite Ho in Ho'. rewrite Hw in Hw'. injection Ho' as <-.
  injection Hw' as <-.
  destruct Hcase as [[_ ->]|(_ & _ & _ & _ & _ & _ & c' & Hint & Hcases)];
    [done|].
  unfold get_n_cases in Hc. rewrite Hcases in Hc. injection Hc as ->.
  assert (Hfin : Forall (λ x, ∃ q, x = Fin q) o).
  { eapply Forall_impl; [exact Hbin|]. intros x [-> | ->]; by eexists. }
  rewrite (dropna2_all _ _ Hfin Hnn) in Hint.
  assert (Hbin' : Forall (λ p : fval * fval,
                            ∃ x, p.1 = Fin x ∧ (x == 0 ∨ x == 1)) (zip o w)).
  { apply Forall_forall. intros [x y] Hin%elem_of_zip_l.
    rewrite Forall_forall in Hbin.
    destruct (Hbin x Hin) as [-> | ->]; eexists; (split; [done|]);
      [by left | by right]. }
  destruct (binary_outcome_sum _ 0 Hbin') as (s & Hs & Es).
  rewrite F_sum_foldl, Hs in Hint.
  - rewrite (py_int_integer s (Z.of_nat (count_cases (zip o w)))) in Hint
      by (rewrite Es; ring).
    injection Hint as <-. by rewrite count_cases_zip.
  - apply Forall_fmap. apply Forall_forall. intros [x y] Hin%elem_of_zip_l.
    rewrite Forall_forall in Hfin. by apply Hfin.
Qed.

Lemma filter_select_mask (f : fval → bool) (m : list bool) (s : Series) :
  length s = length m →
  length (List.filter f (select m s))
  = length (List.filter id (mask_and m (f <$> s))).
Proof.
  unfold select, mask_and. revert m.
  induction s as [|x s IH]; intros [|b m]; try done.
  intros [= Hlen]. rewrite fmap_cons.
  cbn [zip zip_with List.filter snd fmap list_fmap].
  destruct b; cbn [andb fmap list_fmap fst List.filter id].
  - destruct (f x); cbn [length]; by rewrite <- IH.
  - by apply IH.
Qed.

Lemma era_cases_count (eras : list string) (chd : Series) era :
  length eras = length chd →
  era_cases eras chd era
  = era_count (select (series_eq chd (Fin 1)) eras) era.
Proof.
  unfold era_cases, era_count, select, mask_and, str_eq, series_eq.
  revert chd. induction eras as [|e eras IH]; intros [|x chd]; try done.
  intros [= Hlen]. specialize (IH chd Hlen). simpl in *.
  destruct (F.eqb x (Fin 1)); simpl;
    [destruct (bool_decide (e = era)); simpl; [f_equal|]|];
    rewrite ?andb_false_r; exact IH.
Qed.

Lemma era_cases_le (eras : list string) (chd : Series) era :
  (era_cases eras chd era ≤ era_count eras era)%nat.
Proof.
  unfold era_cases, era_count, mask_and.
  generalize (str_eq eras era) (series_eq chd (Fin 1)).
  induction l as [|a l IH]; intros [|b k]; cbn; try lia.
  specialize (IH k). destruct a, b; cbn; lia.
Qed.

Lemma elem_of_select {A} (m : list bool) (s : list A) x :
  x ∈ select m s → x ∈ s.
Proof.
  unfold select. intros (p & -> & Hp)%list_elem_of_fmap.
  apply list_elem_of_In, filter_In in Hp as [Hp _].
  apply list_elem_of_In in Hp. destruct p as [y b].
  by apply elem_of_zip_l in Hp.
Qed.

(** On a frame whose outcomes are 0 or 1 and whose weights are present,
    the case count that the era table reports for an era is the number
    of records of that era with outcome 1, the count that the
    risk-factor table takes as the size of its slice; it is at most the
    era's size, and over the table the counts add up to the number of
    records with outcome 1. *)
Theorem analyze_prevalence_by_era_cases sqrtQ df eras chd w rows :
  df_wf df →
  df_str df !! "era" = Some eras →
  df_num df !! "chd_composite" = Some chd →
  df_num df !! "WTMEC2YR" = Some w →
  Forall (λ x, x = Fin 0 ∨ x = Fin 1) chd → Forall (λ x, x ≠ NaN) w →
  analyze_prevalence_by_era sqrtQ df = Ok rows →
  Forall2 (λ era row,
             er_era row = era ∧
             er_n_chd row = Z.of_nat (era_cases eras chd era) ∧
             (era_cases eras chd era ≤ er_n_total row)%nat)
    (sorted_unique eras) rows ∧
  sum_list (era_cases eras chd <$> sorted_unique eras)
  = length (List.filter (λ x, F.eqb x (Fin 1)) chd).
Proof.
  intros Hwf Hera Hchd Hw Hbin Hnn Hrows.
  pose proof (proj2 Hwf _ _ Hera) as Le.
  pose proof (proj1 Hwf _ _ Hchd) as Lc.
  pose proof (proj1 Hwf _ _ Hw) as Lw. cbn beta in Le, Lc, Lw.
  split.
  - unfold analyze_prevalence_by_era, df_scol in Hrows.
    rewrite Hera in Hrows. cbn [mbind result_bind] in Hrows.
    apply mapM_Ok in Hrows.
    eapply Forall2_impl; [exact Hrows|]. cbn beta.
    intros era row Hrow.
    destruct (analyze_era_fields _ _ _ _ _ Hrow) as [He Hn].
    split; [done|].
    rewrite Hn. split; [|apply era_cases_le].
    unfold analyze_era in Hrow. cbv zeta in Hrow.
    apply bind_Ok_inv in Hrow as (prev & Hprev & H).
    apply bind_Ok_inv in H as (age_prev & _ & H).
    apply bind_Ok_inv in H as (cases & Hcases & H).
    injection H as <-. cbn [er_n_chd].
    assert (Lm : length (str_eq eras era) = df_len df).
    { unfold str_eq. by rewrite length_fmap. }
    rewrite (estimator_binary_cases _ _ _ _
               (select (str_eq eras era) chd) (select (str_eq eras era) w)
               Hprev Hcases).
    + f_equal. unfold era_cases.
      rewrite (filter_select_mask (λ x, F.eqb x (Fin 1))) by lia. done.
    + by rewrite df_filter_lookup, Hchd.
    + by rewrite df_filter_lookup, Hw.
    + by apply Forall_select.
    + by apply Forall_select.
    + rewrite !length_select by lia. done.
  - assert (era_cases eras chd <$> sorted_unique eras
            = era_count (select (series_eq chd (Fin 1)) eras)
                <$> sorted_unique eras) as ->.
    { apply list_fmap_ext. intros i era _. apply era_cases_count. lia. }
    rewrite sum_era_counts.
    + rewrite length_select
        by (unfold series_eq; rewrite length_fmap; lia).
      unfold series_eq. clear. induction chd as [|x chd IH]; [done|].
      rewrite fmap_cons. cbn [List.filter].
      destruct (F.eqb x (Fin 1)); cbn [id length]; by rewrite IH.
    + apply sorted_unique_NoDup.
    + intros x Hx%elem_of_select. by apply sorted_unique_elem.
Qed.

Lemma analyze_prevalence_by_era_cases_witness :
  ∃ rows, analyze_prevalence_by_era sqrt_floor sample_two_eras = Ok rows ∧
          Forall2 (λ era row, er_era row = era ∧ er_n_chd row = 1%Z)
            ["Era2_1999-2006"; "Era3_2007-2014"] rows.
Proof.
  destruct (analyze_prevalence_by_era sqrt_floor sample_two_eras)
    as [rows|e] eqn:E; [|by vm_compute in E].
  destruct (analyze_prevalence_by_era_cases sqrt_floor sample_two_eras
              ["Era3_2007-2014"; "Era2_1999-2006"; "Era3_2007-2014";
               "Era2_1999-2006"; "Era3_2007-2014"]
              [Fin 1; Fin 0; Fin 0; Fin 1; Fin 0]
              [Fin 2; Fin 1; Fin 1; Fin 3; Fin 1] rows)
    as [Hrows _];
    [compute_done | done | done | done
     | repeat constructor; by (left + right)
     | repeat constructor; done | done |].
  exists rows. split; [done|].
  change (sorted_unique
            ["Era3_2007-2014"; "Era2_1999-2006"; "Era3_2007-2014";
             "Era2_1999-2006"; "Era3_2007-2014"])
    with ["Era2_1999-2006"; "Era3_2007-2014"] in Hrows.
  apply Forall2_cons_inv_l in Hrows as (r1 & rs1 & (E1 & C1 & _) & Hrows & ->).
  apply Forall2_cons_inv_l in Hrows as (r2 & rs2 & (E2 & C2 & _) & Hrows & ->).
  apply Forall2_nil_inv_l in Hrows as ->.
  repeat constructor; done.
Defined.

(** ** Diabetes and hypertension, record by record *)

Lemma F_geb_below x t : below x t → F.geb x (Fin t) = false.
Proof.
  intros [->|(q & -> & Hq)]; [done|].
  apply not_true_is_false. intros H%F_geb_Fin. lra.
Qed.

Lemma F_eqb_not_code x c : not_code x c → F.eqb x (Fin c) = false.
Proof.
  intros [->|(q & -> & Hq)]; [done|].
  apply not_true_is_false. intros H%F_eqb_eq. by apply Hq.
Qed.

(** A record is diabetic as soon as one of the five criteria that the
    code tests is met: HbA1c at least 6.5, glucose at least 126, insulin
    use, oral medication, or a reported diagnosis; the other criteria
    may be missing. A record none of whose criteria is met, each being
    missing or unmet, is 0 and not missing. *)
Theorem define_diabetes_criteria df i hba1c glucose insulin oral told :
  cell df "hba1c" i = Some hba1c → cell df "glucose" i = Some glucose →
  cell df "insulin_use" i = Some insulin →
  cell df "oral_dm_med" i = Some oral →
  cell df "diabetes_told" i = Some told →
  ∃ v, define_diabetes df !! i = Some v ∧ (v = Fin 0 ∨ v = Fin 1) ∧
    (∀ q, hba1c = Fin q → 65 # 10 <= q → v = Fin 1) ∧
    (∀ q, glucose = Fin q → 126 <= q → v = Fin 1) ∧
    (∀ q, insulin = Fin q → q == 1 → v = Fin 1) ∧
    (∀ q, oral = Fin q → q == 1 → v = Fin 1) ∧
    (∀ q, told = Fin q → q == 1 → v = Fin 1) ∧
    (below hba1c (65 # 10) → below glucose 126 → not_code insulin 1 →
     not_code oral 1 → not_code told 1 → v = Fin 0).
Proof.
  intros H1 H2 H3 H4 H5. eexists. split.
  { by apply define_diabetes_row. }
  split; [|split; [|split; [|split; [|split; [|split]]]]].
  - destruct (_ || _); [by right | by left].
  - intros q -> Hq. by rewrite (proj2 (F_geb_Fin q (65 # 10)) Hq).
  - intros q -> Hq. rewrite (proj2 (F_geb_Fin q 126) Hq).
    by rewrite orb_true_r.
  - intros q -> Hq. rewrite (proj2 (F_eqb_eq (Fin q) (Fin 1)) Hq).
    by rewrite orb_true_r.
  - intros q -> Hq. rewrite (proj2 (F_eqb_eq (Fin q) (Fin 1)) Hq).
    by rewrite orb_true_r.
  - intros q -> Hq. rewrite (proj2 (F_eqb_eq (Fin q) (Fin 1)) Hq).
    by rewrite orb_true_r.
  - intros B1 B2 B3 B4 B5.
    by rewrite (F_geb_below _ _ B1), (F_geb_below _ _ B2),
      (F_eqb_not_code _ _ B3), (F_eqb_not_code _ _ B4),
      (F_eqb_not_code _ _ B5).
Qed.

Lemma define_diabetes_criteria_witness :
  define_diabetes sample_bp !! 0%nat = Some (Fin 1) ∧
  define_diabetes sample_bp !! 1%nat = Some (Fin 0).
Proof.
  destruct (define_diabetes_criteria sample_bp 0 NaN (Fin 130) NaN NaN NaN)
    as (v & Hv & _ & _ & Hg & _); [done..|].
  destruct (define_diabetes_criteria sample_bp 1 (Fin (57 # 10)) NaN NaN NaN
              NaN) as (v' & Hv' & _ & _ & _ & _ & _ & _ & Hz); [done..|].
  split.
  - rewrite Hv. f_equal. by apply (Hg 130).
  - rewrite Hv'. f_equal.
    apply Hz; try (by left). right. exists (57 # 10). split; [done|].
    reflexivity.
Defined.

Lemma whole_finite_or_missing x : whole_or_missing x → finite_or_missing x.
Proof. intros [->|(z & _ & ->)]; [by left | right; by eexists]. Qed.

Lemma foldl_add_available (qs : list Q) a :
  foldl F.add (Fin a) (Fin <$> qs) = Fin (foldl Qplus a qs).
Proof.
  revert a. induction qs as [|q qs IH]; intros a; [done|].
  rewrite fmap_cons. cbn [foldl]. rewrite F_add_Fin. apply IH.
Qed.

Lemma present_available (vals : list fval) :
  Forall finite_or_missing vals →
  List.filter (λ x, negb (F.is_nan x)) vals = Fin <$> available vals.
Proof.
  unfold available.
  induction 1 as [|x vals [->|[q ->]] _ IH]; [done| |];
    cbn [List.filter F.is_nan negb omap list_omap]; [done|].
  by rewrite fmap_cons, IH.
Qed.

(** The row mean is the sum of the readings that are present divided by
    their number, and missing when there is none. *)
Lemma row_mean_available (vals : list fval) :
  Forall finite_or_missing vals →
  row_mean vals =
  match available vals with
  | [] => NaN
  | _ => Fin (foldl Qplus 0 (available vals)
              / inject_Z (Z.of_nat (length (available vals))))
  end.
Proof.
  intros Hf. unfold row_mean, F.sum. cbv zeta.
  rewrite (present_available _ Hf).
  destruct (available vals) as [|q qs] eqn:E; [done|].
  rewrite <- E. rewrite E at 1. rewrite fmap_cons.
  rewrite foldl_add_available, length_fmap.
  apply F_div_pos, of_nat_pos. rewrite E. cbn. lia.
Qed.

Lemma row_mean_geb (vals : list fval) t :
  Forall finite_or_missing vals →
  F.geb (row_mean vals) (Fin t) = true ↔ mean_at_least vals t.
Proof.
  intros Hf. rewrite (row_mean_available _ Hf). unfold mean_at_least.
  destruct (available vals) as [|q qs] eqn:E.
  { split; [done | by intros [? _]]. }
  rewrite <- E.
  assert (0 < inject_Z (Z.of_nat (length (available vals)))) as Hpos.
  { apply of_nat_pos. rewrite E. cbn. lia. }
  rewrite F_geb_Fin. split.
  - intros H. split; [by rewrite E|].
    apply (Qmult_le_compat_r _ _ (inject_Z (Z.of_nat (length (available vals)))))
      in H; [|lra].
    rewrite (Qmult_comm (_ / _)), Qmult_div_r in H by lra. exact H.
  - intros [_ H]. by apply Qle_shift_div_l.
Qed.

Lemma F_eqb_has_code x c : F.eqb x (Fin c) = true ↔ has_code x c.
Proof.
  rewrite F_eqb_eq. unfold has_code. destruct x as [q| | |]; simpl.
  - split; [intros H; by exists q | by intros (q' & [= <-] & H)].
  - split; [done | by intros (q' & [=] & _)].
  - split; [done | by intros (q' & [=] & _)].
  - split; [done | by intros (q' & [=] & _)].
Qed.

Lemma of_bool_one (b : bool) : F.of_bool b = Fin 1 ↔ b = true.
Proof. by destruct b. Qed.

Lemma mean_bp_lookup df p i :
  (i < df_len df)%nat →
  mean_bp df p !! i = Some (row_mean (readings df p i)).
Proof.
  intros Hi. unfold mean_bp, readings.
  destruct (columns_startswith df p) as [|c cols] eqn:E.
  - by apply lookup_nan_series.
  - unfold mean_axis1. by rewrite list_lookup_fmap, lookup_seq_lt.
Qed.

(** Blood pressure is averaged over the readings that a record has, the
    missing ones left out. For readings recorded as whole numbers, a
    record is hypertensive exactly when the mean of its available
    systolic readings is at least 130, or the mean of its available
    diastolic readings is at least 80, or it reports medication; it is 0
    otherwise, also when it has no reading at all. Readings of 140 and
    119 have the mean 129.5 and do not make a record hypertensive. *)
Theorem define_hypertension_available_readings df i med :
  (i < df_len df)%nat → cell df "bp_med" i = Some med →
  Forall whole_or_missing (readings df "sbp" i) →
  Forall whole_or_missing (readings df "dbp" i) →
  ∃ v, define_hypertension df !! i = Some v ∧ (v = Fin 0 ∨ v = Fin 1) ∧
    (v = Fin 1 ↔
     mean_at_least (readings df "sbp" i) 130 ∨
     mean_at_least (readings df "dbp" i) 80 ∨
     has_code med 1).
Proof.
  intros Hi Hmed Ws Wd.
  assert (Fs : Forall finite_or_missing (readings df "sbp" i)).
  { eapply Forall_impl; [exact Ws|]. apply whole_finite_or_missing. }
  assert (Fd : Forall finite_or_missing (readings df "dbp" i)).
  { eapply Forall_impl; [exact Wd|]. apply whole_finite_or_missing. }
  eexists. split.
  { apply define_hypertension_row; [by apply mean_bp_lookup..|done]. }
  split.
  - destruct (_ || _); [by right | by left].
  - rewrite of_bool_one, !orb_true_iff.
    rewrite (row_mean_geb _ 130 Fs), (row_mean_geb _ 80 Fd),
      F_eqb_has_code. tauto.
Qed.

Lemma define_hypertension_available_readings_witness :
  define_hypertension sample_bp !! 0%nat = Some (Fin 1) ∧
  define_hypertension sample_bp !! 1%nat = Some (Fin 0).
Proof.
  assert (readings sample_bp "sbp" 0 = [Fin 136; Fin 142; NaN]) as S0
    by (by vm_compute).
  assert (readings sample_bp "dbp" 0 = [NaN]) as D0 by (by vm_compute).
  assert (readings sample_bp "sbp" 1 = [Fin 140; NaN; Fin 119]) as S1
    by (by vm_compute).
  assert (readings sample_bp "dbp" 1 = [Fin 72]) as D1 by (by vm_compute).
  assert (∀ z : Z, (0 <= z)%Z → whole_or_missing (Fin (inject_Z z))) as Hw.
  { intros z Hz. right. exists z. split; [exact Hz | reflexivity]. }
  assert (whole_or_missing NaN) as Hnan by (left; reflexivity).
  destruct (define_hypertension_available_readings sample_bp 0 NaN)
    as (v & Hv & _ & Hiff).
  { cbn. lia. }
  { done. }
  { rewrite S0.
    repeat (apply Forall_cons_2;
            [first [exact Hnan | apply Hw; discriminate]|]).
    apply Forall_nil_2. }
  { rewrite D0.
    repeat (apply Forall_cons_2;
            [first [exact Hnan | apply Hw; discriminate]|]).
    apply Forall_nil_2. }
  destruct (define_hypertension_available_readings sample_bp 1 NaN)
    as (v' & Hv' & Hbin & Hiff').
  { cbn. lia. }
  { done. }
  { rewrite S1.
    repeat (apply Forall_cons_2;
            [first [exact Hnan | apply Hw; discriminate]|]).
    apply Forall_nil_2. }
  { rewrite D1.
    repeat (apply Forall_cons_2;
            [first [exact Hnan | apply Hw; discriminate]|]).
    apply Forall_nil_2. }
  split.
  - rewrite Hv. f_equal. apply Hiff. left. rewrite S0.
    split; by vm_compute.
  - rewrite Hv'. f_equal. destruct Hbin as [->|E1]; [done|].
    exfalso. apply Hiff' in E1. rewrite S1, D1 in E1.
    destruct E1 as [[_ H]|[[_ H]|(q & [=] & _)]];
      vm_compute in H; by apply H.
Defined.
